(** * go-msbuild: the element tree, the template rewriter and the filter
    document builder of [msbuild.go], embedded as Rocq functions.

    Go strings are byte strings and are modelled by [string]; slices are
    lists; an [*Element] that the code mutates in place is a value that the
    model passes along and returns.  [path/filepath] is modelled with the
    Unix separator ['/']. *)

From Stdlib Require Import List String Ascii Bool Arith NArith Lia.
Import ListNotations.
Open Scope string_scope.

Set Implicit Arguments.

(** ** xml.Name, xml.Attr and the element tree *)

Record Name : Type := mkName { Space : string; Local : string }.

Record Attr : Type := mkAttr { AttrName : Name; Value : string }.

(** [Element] with its [children []interface{}]: the code stores exactly three
    dynamic types in that slice, [*Element], [xml.CharData] and
    [xml.Comment]. *)
Inductive Element : Type :=
| mkElement (name : Name) (attributes : list Attr) (children : list Child)
with Child : Type :=
| ChildElement (e : Element)
| CharData (s : string)
| Comment (s : string).

Definition name (e : Element) : Name :=
  match e with mkElement n _ _ => n end.
Definition attributes (e : Element) : list Attr :=
  match e with mkElement _ a _ => a end.
Definition children (e : Element) : list Child :=
  match e with mkElement _ _ c => c end.

(** [&Element{}] followed by [name.Local = n]. *)
Definition newElement (n : string) : Element :=
  mkElement (mkName "" n) [] [].

(** [func (e *Element) AddAttribute(name, value string)] *)
Definition AddAttribute (e : Element) (n v : string) : Element :=
  mkElement (name e) (attributes e ++ [mkAttr (mkName "" n) v]) (children e).

(** [func (e *Element) AddChild(name string) *Element]: the child is appended
    empty; what the caller does to the returned pointer afterwards is modelled
    by [AppendChild], which appends the child in its final state. *)
Definition AppendChild (e : Element) (c : Element) : Element :=
  mkElement (name e) (attributes e) (children e ++ [ChildElement c]).

Definition AddChild (e : Element) (n : string) : Element :=
  AppendChild e (newElement n).

(** [func (e *Element) AddCharData(value string)] *)
Definition AddCharData (e : Element) (v : string) : Element :=
  mkElement (name e) (attributes e) (children e ++ [CharData v]).

(** ** Slices *)

(** The slice with element [i] changed by [f]; unchanged when [i] is out of
    range. *)
Fixpoint set_nth {A : Type} (i : nat) (f : A -> A) (l : list A) : list A :=
  match l, i with
  | [], _ => []
  | x :: r, O => f x :: r
  | x :: r, S i' => x :: set_nth i' f r
  end.

(** ** path/filepath, Unix flavour *)

Definition Separator : ascii := "/"%char.

Definition IsPathSeparator (c : ascii) : bool := Ascii.eqb c Separator.

(** [filepath.FromSlash]: the identity where the separator is a slash. *)
Definition FromSlash (path : string) : string := path.

(** The loop of [filepath.Ext], [for i := len(path)-1; i >= 0 &&
    !IsPathSeparator(path[i]); i--]: [rev_prefix] is [path[:i+1]] reversed and
    [suffix] is [path[i+1:]]. *)
Fixpoint ext_loop (rev_prefix : list ascii) (suffix : string) : string :=
  match rev_prefix with
  | [] => ""
  | c :: r =>
      if IsPathSeparator c then ""
      else if Ascii.eqb c "."%char then String c suffix
      else ext_loop r (String c suffix)
  end.

Definition Ext (path : string) : string :=
  ext_loop (rev (list_ascii_of_string path)) "".

(** [strings.Split(s, "/")]: the elements between separators, empty ones
    included. *)
Fixpoint split_sep (s : string) : list string :=
  match s with
  | EmptyString => [""]
  | String c r =>
      if IsPathSeparator c then "" :: split_sep r
      else match split_sep r with
           | h :: t => String c h :: t
           | [] => [String c ""]
           end
  end.

Definition join_sep (l : list string) : string := String.concat "/" l.

Definition rooted (path : string) : bool :=
  match path with
  | String c _ => IsPathSeparator c
  | EmptyString => false
  end.

(** One path element of [filepath.Clean]; [out] is the output buffer as a
    stack of elements, last written first.  A [".."] on the stack belongs to
    the leading [../..] prefix that cannot be backtracked over. *)
Definition clean_step (is_rooted : bool) (out : list string) (elem : string)
    : list string :=
  if String.eqb elem "" then out
  else if String.eqb elem "." then out
  else if String.eqb elem ".." then
    match out with
    | top :: rest =>
        if String.eqb top ".." then ".." :: out else rest
    | [] => if is_rooted then out else [".."]
    end
  else elem :: out.

(** [filepath.Clean] *)
Definition Clean (path : string) : string :=
  if String.eqb path "" then "."
  else
    let is_rooted := rooted path in
    let out := fold_left (clean_step is_rooted) (split_sep path) [] in
    let body := join_sep (rev out) in
    if is_rooted then String Separator body
    else if String.eqb body "" then "." else body.

(** [filepath.Join] *)
Fixpoint Join (elem : list string) : string :=
  match elem with
  | [] => ""
  | e :: r => if String.eqb e "" then Join r else Clean (join_sep elem)
  end.

(** The loop shared by [filepath.Split] and [filepath.Dir],
    [for i >= 0 && !IsPathSeparator(path[i]) { i-- }]; the result is
    [(path[:i+1], path[i+1:])]. *)
Fixpoint split_loop (rev_prefix : list ascii) (suffix : string) : string * string :=
  match rev_prefix with
  | [] => ("", suffix)
  | c :: r =>
      if IsPathSeparator c
      then (string_of_list_ascii (rev rev_prefix), suffix)
      else split_loop r (String c suffix)
  end.

(** [filepath.Split] *)
Definition Split (path : string) : string * string :=
  split_loop (rev (list_ascii_of_string path)) "".

(** [filepath.Dir] *)
Definition Dir (path : string) : string := Clean (fst (Split path)).

(** [filepath.IsAbs] *)
Definition IsAbs (path : string) : bool := rooted path.

(** [filepath.Abs]; [wd] is what [os.Getwd] returns, an absolute path or an
    error. *)
Definition Abs (wd : option string) (path : string) : option string :=
  if IsAbs path then Some (Clean path)
  else match wd with
       | Some wd => Some (Join [wd; path])
       | None => None
       end.

(** The element-by-element comparison of [filepath.Rel].  [bs] and [ts] are the
    elements of [base[bi:]] and [targ[ti:]]; the result is
    [(base[b0:bi], base[b0:], targ[t0:])] when the loop is left. *)
Fixpoint rel_loop (bs ts : list string) : string * string * string :=
  let b := join_sep bs in
  let t := join_sep ts in
  match bs, ts with
  | eb :: bs', et :: ts' =>
      if String.eqb b "" || String.eqb t "" then ("", b, t)
      else if negb (String.eqb et eb) then (eb, b, t)
      else rel_loop bs' ts'
  | _, _ => ("", b, t)
  end.

Fixpoint count_sep (s : string) : nat :=
  match s with
  | EmptyString => 0
  | String c r => (if IsPathSeparator c then 1 else 0) + count_sep r
  end.

Fixpoint dotdots (n : nat) : string :=
  match n with
  | 0 => ""
  | S n => "/.." ++ dotdots n
  end.

(** [filepath.Rel]; [None] is the error result. *)
Definition Rel (basepath targpath : string) : option string :=
  let base := Clean basepath in
  let targ := Clean targpath in
  if String.eqb targ base then Some "."
  else
    let base := if String.eqb base "." then "" else base in
    if negb (Bool.eqb (rooted base) (rooted targ)) then None
    else
      let '(elem, brest, trest) := rel_loop (split_sep base) (split_sep targ) in
      if String.eqb elem ".." then None
      else if negb (String.eqb brest "") then
        Some (".." ++ dotdots (count_sep brest)
                   ++ (if negb (String.eqb trest "") then String Separator trest else ""))
      else Some trest.

(** ** The section rewriter *)

Definition isSourceExt (ext : string) : bool :=
  negb (negb (String.eqb ext ".cpp") && negb (String.eqb ext ".cxx")).

Definition isHeaderExt (ext : string) : bool :=
  negb (negb (String.eqb ext ".h")).

(** The string ["\n"]. *)
Definition newline : string := String (ascii_of_nat 10) "".

(** One turn of the loop body of [overrideSources] and [overrideHeaders]:
    [continue] when the extension is not recognised, otherwise [AddChild(tag)],
    [child.AddAttribute("Include", file)] and [element.AddCharData("\n")]. *)
Definition overrideStep (accept : string -> bool) (tag : string)
    (element : Element) (file : string) : Element :=
  let file := FromSlash file in
  let ext := Ext file in
  if accept ext then
    AddCharData (AppendChild element (AddAttribute (newElement tag) "Include" file))
                newline
  else element.

(** [element.attributes = element.attributes[:0]] *)
Definition clearAttributes (e : Element) : Element :=
  mkElement (name e) [] (children e).

(** [func overrideSources(element *Element, files []string)] *)
Definition overrideSources (element : Element) (files : list string) : Element :=
  fold_left (overrideStep isSourceExt "ClCompile") files (clearAttributes element).

(** [func overrideHeaders(element *Element, files []string)] *)
Definition overrideHeaders (element : Element) (files : list string) : Element :=
  fold_left (overrideStep isHeaderExt "ClInclude") files (clearAttributes element).

(** ** github.com/google/uuid: SHA-1 name-based identifiers

    A [UUID] is the [[16]byte] array of the library, a byte being a number
    below 256. *)

Section SHA1.

Local Open Scope N_scope.

Definition byte : Type := N.
Definition UUID : Type := list byte.

Definition mask32 : N := 4294967295.

Definition add32 (a b : N) : N := N.land (a + b) mask32.

Definition rotl (n x : N) : N :=
  N.land (N.lor (N.shiftl x n) (N.shiftr x (32 - n))) mask32.

Definition not32 (x : N) : N := N.lxor x mask32.

(** Big-endian bytes of a [width]-byte number. *)
Fixpoint be_bytes (width : nat) (x : N) : list byte :=
  match width with
  | O => []
  | S w => N.land (N.shiftr x (8 * N.of_nat w)) 255 :: be_bytes w x
  end.

Definition be_word (bs : list byte) : N :=
  fold_left (fun acc b => N.lor (N.shiftl acc 8) b) bs 0.

(** The message followed by the bit [1], zeros, and its length in bits as a
    64-bit number; a multiple of 64 bytes. *)
Definition sha1_pad (msg : list byte) : list byte :=
  let len := List.length msg in
  let zeros := ((64 - ((len + 9) mod 64)) mod 64)%nat in
  msg ++ [128] ++ repeat 0 zeros ++ be_bytes 8 (8 * N.of_nat len).

(** Cut a list into pieces of [size] elements; [fuel] bounds the number of
    pieces. *)
Fixpoint chunks {A : Type} (fuel size : nat) (l : list A) : list (list A) :=
  match fuel with
  | O => []
  | S f =>
      match l with
      | [] => []
      | _ => firstn size l :: chunks f size (skipn size l)
      end
  end.

(** The message schedule, last word first: [w[i] = rotl 1 (w[i-3] xor w[i-8]
    xor w[i-14] xor w[i-16])]. *)
Fixpoint sha1_schedule (n : nat) (ws : list N) : list N :=
  match n with
  | O => ws
  | S n' =>
      let w := rotl 1 (N.lxor (N.lxor (nth 2 ws 0) (nth 7 ws 0))
                              (N.lxor (nth 13 ws 0) (nth 15 ws 0))) in
      sha1_schedule n' (w :: ws)
  end.

Definition sha1_state : Type := (N * N * N * N * N)%type.

Definition sha1_f (i : nat) (b c d : N) : N :=
  if (i <? 20)%nat then N.lor (N.land b c) (N.land (not32 b) d)
  else if (i <? 40)%nat then N.lxor (N.lxor b c) d
  else if (i <? 60)%nat then N.lor (N.lor (N.land b c) (N.land b d)) (N.land c d)
  else N.lxor (N.lxor b c) d.

Definition sha1_k (i : nat) : N :=
  if (i <? 20)%nat then 1518500249
  else if (i <? 40)%nat then 1859775393
  else if (i <? 60)%nat then 2400959708
  else 3395469782.

Definition sha1_round (st : sha1_state * nat) (w : N) : sha1_state * nat :=
  let '((a, b, c, d, e), i) := st in
  let temp := add32 (add32 (add32 (add32 (rotl 5 a) (sha1_f i b c d)) e) (sha1_k i)) w in
  ((temp, a, rotl 30 b, c, d), S i).

Definition sha1_block (h : sha1_state) (block : list byte) : sha1_state :=
  let w16 := map be_word (chunks 16 4 block) in
  let ws := rev (sha1_schedule 64 (rev w16)) in
  let '(h0, h1, h2, h3, h4) := h in
  let '((a, b, c, d, e), _) := fold_left sha1_round ws (h, O) in
  (add32 h0 a, add32 h1 b, add32 h2 c, add32 h3 d, add32 h4 e).

Definition sha1_init : sha1_state :=
  (1732584193, 4023233417, 2562383102, 271733878, 3285377520).

(** The 20 bytes of the SHA-1 digest. *)
Definition sha1 (msg : list byte) : list byte :=
  let padded := sha1_pad msg in
  let '(h0, h1, h2, h3, h4) :=
    fold_left sha1_block (chunks (List.length padded) 64 padded) sha1_init in
  be_bytes 4 h0 ++ be_bytes 4 h1 ++ be_bytes 4 h2 ++ be_bytes 4 h3 ++ be_bytes 4 h4.

(** [[]byte(s)] *)
Definition bytes_of_string (s : string) : list byte :=
  map N_of_ascii (list_ascii_of_string s).

(** [uuid.NewSHA1(space, data)]: the first 16 bytes of
    [sha1(space ++ data)], with the version nibble set to 5 and the variant
    bits to [10]. *)
Definition NewSHA1 (space : UUID) (data : list byte) : UUID :=
  let s := sha1 (space ++ data) in
  let u := firstn 16 s in
  let u := set_nth 6 (fun b => N.lor (N.land b 15) 80) u in
  set_nth 8 (fun b => N.lor (N.land b 63) 128) u.

Definition hex_digit (n : N) : ascii :=
  match n with
  | 0 => "0" | 1 => "1" | 2 => "2" | 3 => "3" | 4 => "4" | 5 => "5"
  | 6 => "6" | 7 => "7" | 8 => "8" | 9 => "9" | 10 => "a" | 11 => "b"
  | 12 => "c" | 13 => "d" | 14 => "e" | _ => "f"
  end%char.

Fixpoint hex_encode (bs : list byte) : string :=
  match bs with
  | [] => ""
  | b :: r => String (hex_digit (N.shiftr b 4))
                (String (hex_digit (N.land b 15)) (hex_encode r))
  end.

(** [func (uuid UUID) String() string]: the form
    [xxxxxxxx-xxxx-xxxx-xxxx-xxxxxxxxxxxx]. *)
Definition UUID_String (u : UUID) : string :=
  (hex_encode (firstn 4 u) ++ "-" ++ hex_encode (firstn 2 (skipn 4 u)) ++ "-"
    ++ hex_encode (firstn 2 (skipn 6 u)) ++ "-"
    ++ hex_encode (firstn 2 (skipn 8 u)) ++ "-"
    ++ hex_encode (skipn 10 u))%string.

(** The table [xvalues] of the library: the value of a hexadecimal digit. *)
Definition xvalue (c : ascii) : option N :=
  let n := N_of_ascii c in
  if (48 <=? n) && (n <=? 57) then Some (n - 48)
  else if (97 <=? n) && (n <=? 102) then Some (n - 87)
  else if (65 <=? n) && (n <=? 70) then Some (n - 55)
  else None.

(** [xtob] over a run of digit pairs. *)
Fixpoint hex_decode (cs : list ascii) : option (list byte) :=
  match cs with
  | [] => Some []
  | [_] => None
  | x1 :: x2 :: r =>
      match xvalue x1, xvalue x2, hex_decode r with
      | Some h, Some l, Some bs => Some (N.lor (N.shiftl h 4) l :: bs)
      | _, _, _ => None
      end
  end.

Definition is_dash (c : option ascii) : bool :=
  match c with
  | Some c => Ascii.eqb c "-"%char
  | None => false
  end.

(** [uuid.Parse] on the 36-character form, the one [UUIDSPACE] is written
    in; the other forms the library accepts are not modelled and are
    rejected here. *)
Definition UUID_Parse (s : string) : option UUID :=
  if negb (String.length s =? 36)%nat then None
  else if negb (is_dash (String.get 8 s) && is_dash (String.get 13 s)
                && is_dash (String.get 18 s) && is_dash (String.get 23 s))
  then None
  else
    hex_decode (list_ascii_of_string
      (String.substring 0 8 s ++ String.substring 9 4 s ++ String.substring 14 4 s
         ++ String.substring 19 4 s ++ String.substring 24 12 s)%string).

End SHA1.

(** [var UUIDSPACE string] *)
Definition UUIDSPACE : string := "10758f2f-f8bc-4d6b-aeaa-8131bf78a862".

(** ** Results of code that may panic, and of loops run with fuel *)

Inductive Run (A : Type) : Type :=
| Done (a : A)
| Panic
| OutOfFuel.

Arguments Done {A} a.
Arguments Panic {A}.
Arguments OutOfFuel {A}.

Definition bind {A B : Type} (r : Run A) (k : A -> Run B) : Run B :=
  match r with
  | Done a => k a
  | Panic => Panic
  | OutOfFuel => OutOfFuel
  end.

Notation "x <- r ;; k" := (bind r (fun x => k))
  (at level 61, r at next level, right associativity).
Notation "' p <- r ;; k" := (bind r (fun x => match x with p => k end))
  (at level 61, p pattern, r at next level, right associativity).

(** ** The xml package: tokens, Encoder and Decoder *)

Definition error : Type := string.

Inductive Token : Type :=
| StartElement (n : Name) (attr : list Attr)
| EndElement (n : Name)
| TokCharData (s : string)
| TokComment (s : string)
| ProcInst (target inst : string)
| Directive (s : string).

(** Modelled from the spec: the [xml.Encoder] of the repository's xml
    package.  The document it produces is kept
    as the sequence of tokens it was given; encoding fails only through the
    underlying sink, which here accepts [room] more tokens ([None]: any number)
    and, once a write is refused, refuses all later ones. *)
Record Encoder : Type := mkEncoder {
  written : list Token;
  room : option nat;
  broken : bool
}.

Definition NewEncoder (room : option nat) : Encoder := mkEncoder [] room false.

Definition SinkWriteError : error := "write error".

(** Modelled from the spec: [Encoder.EncodeToken]. *)
Definition EncodeToken (t : Token) (e : Encoder) : Encoder * option error :=
  if broken e then (e, Some SinkWriteError)
  else match room e with
       | None => (mkEncoder (written e ++ [t]) None false, None)
       | Some (S n) => (mkEncoder (written e ++ [t]) (Some n) false, None)
       | Some O => (mkEncoder (written e) (Some O) true, Some SinkWriteError)
       end.

(** Modelled from the spec: what [Encoder.Encode] does once the value's
    [MarshalXML] has returned: it hands on that error, or else reports a write
    the sink has refused. *)
Definition finishEncode (r : Encoder * option error) : Encoder * option error :=
  match r with
  | (e, Some err) => (e, Some err)
  | (e, None) => (e, if broken e then Some SinkWriteError else None)
  end.

(** [func (in *Element) MarshalXML(e *xml.Encoder, start xml.StartElement) error];
    the results of the [EncodeToken] calls are dropped as in the code, the one
    of [e.Encode(c)] is returned. *)
Fixpoint MarshalXML (i : Element) (e : Encoder) {struct i} : Encoder * option error :=
  match i with
  | mkElement n attrs cs =>
      let e := fst (EncodeToken (StartElement n attrs) e) in
      (fix range (cs : list Child) (e : Encoder) {struct cs} : Encoder * option error :=
         match cs with
         | [] => (fst (EncodeToken (EndElement n) e), None)
         | ChildElement c :: rest =>
             match finishEncode (MarshalXML c e) with
             | (e', Some err) => (e', Some err)
             | (e', None) => range rest e'
             end
         | CharData s :: rest => range rest (fst (EncodeToken (TokCharData s) e))
         | Comment s :: rest => range rest (fst (EncodeToken (TokComment s) e))
         end) cs e
  end.

(** [Encoder.Encode(element)] *)
Definition Encode (v : Element) (e : Encoder) : Encoder * option error :=
  finishEncode (MarshalXML v e).

(** Modelled from the spec: the [xml.Decoder] of the repository's xml package.
    Its input is the sequence of results [d.Token()] will give: a token, or a
    failure; the end of the sequence is [io.EOF]. *)
Inductive Item : Type :=
| Tok (t : Token)
| Fail (err : error).

Definition Decoder : Type := list Item.

Definition EOF : error := "EOF".

(** Modelled from the spec: [d.Token()] as an [UnmarshalXML] sees it.  The
    decoder has been told where the element being decoded ends: once it has
    read the end tag of that element, or when the input is used up, it reports
    [io.EOF]. *)
Definition DecoderToken (d : Decoder) : (Token + error) * Decoder :=
  match d with
  | [] => (inr EOF, [])
  | Fail err :: d => (inr err, d)
  | Tok (EndElement _) :: d => (inr EOF, d)
  | Tok t :: d => (inl t, d)
  end.

(** The [for] loop of [UnmarshalXML].  [d.DecodeElement(&element, &t)] runs
    [UnmarshalXML] on a new element, which takes the local name and the
    attributes of the start tag before it enters its own loop.  Each turn uses
    one unit of [fuel]. *)
Fixpoint unmarshalLoop (fuel : nat) (out : Element) (d : Decoder)
    : Run (Element * Decoder * option error) :=
  match fuel with
  | O => OutOfFuel
  | S fuel =>
      match DecoderToken d with
      | (inr err, d) =>
          if String.eqb err EOF then Done (out, d, None) else Done (out, d, Some err)
      | (inl token, d) =>
          match token with
          | StartElement n attr =>
              '(element, d, err) <-
                unmarshalLoop fuel (mkElement (mkName "" (Local n)) attr []) d ;;
              match err with
              | Some err => Done (out, d, Some err)
              | None => unmarshalLoop fuel (AppendChild out element) d
              end
          | TokCharData s => unmarshalLoop fuel (AddCharData out s) d
          | TokComment s =>
              unmarshalLoop fuel
                (mkElement (name out) (attributes out) (children out ++ [Comment s])) d
          | _ => unmarshalLoop fuel out d
          end
      end
  end.

(** [func (out *Element) UnmarshalXML(d *xml.Decoder, start xml.StartElement) error] *)
Definition UnmarshalXML (out : Element) (d : Decoder) (n : Name) (attr : list Attr)
    : Run (Element * Decoder * option error) :=
  unmarshalLoop (S (List.length d))
    (mkElement (mkName "" (Local n)) attr (children out)) d.

(** Modelled from the spec: [Decoder.Decode(&element)] looks for the first
    start tag and lets the element unmarshal itself from there. *)
Fixpoint Decode (d : Decoder) (v : Element) : Run (Element * option error) :=
  match d with
  | [] => Done (v, Some EOF)
  | Fail err :: _ => Done (v, Some err)
  | Tok (StartElement n attr) :: d =>
      '(out, _, err) <- UnmarshalXML v d n attr ;; Done (out, err)
  | Tok _ :: d => Decode d v
  end.

(** ** The tree scanner *)

Section Scanner.

(** What a [TemplateCallback] closure can change besides the element. *)
Variable St : Type.
Variable callback : Element -> St -> Element * St.

(** [func scanTemplate(element *Element, callback TemplateCallback)] *)
Fixpoint scanTemplate (element : Element) (s : St) {struct element} : Element * St :=
  match element with
  | mkElement n attrs cs =>
      if String.eqb (Local n) "ItemGroup" then callback element s
      else
        let '(cs', s') :=
          (fix range (cs : list Child) (s : St) {struct cs} : list Child * St :=
             match cs with
             | [] => ([], s)
             | ChildElement c :: rest =>
                 let '(c', s1) := scanTemplate c s in
                 let '(rest', s2) := range rest s1 in
                 (ChildElement c' :: rest', s2)
             | child :: rest =>
                 let '(rest', s2) := range rest s in
                 (child :: rest', s2)
             end) cs s in
        (mkElement n attrs cs', s')
  end.

End Scanner.

(** ** Trees built through the public operations

    A pointer to an element inside a tree is the list of child positions that
    leads to it; a method called through such a pointer changes the tree at
    that place. *)

Definition on_element (g : Element -> Element) (c : Child) : Child :=
  match c with
  | ChildElement x => ChildElement (g x)
  | _ => c
  end.

Fixpoint update_at (path : list nat) (f : Element -> Element) (e : Element) : Element :=
  match path with
  | [] => f e
  | i :: p =>
      mkElement (name e) (attributes e)
                (set_nth i (on_element (update_at p f)) (children e))
  end.

Inductive Mutation : Type :=
| CallAddAttribute (n v : string)
| CallAddChild (n : string)
| CallAddCharData (v : string).

Definition mutate (m : Mutation) (e : Element) : Element :=
  match m with
  | CallAddAttribute n v => AddAttribute e n v
  | CallAddChild n => AddChild e n
  | CallAddCharData v => AddCharData e v
  end.

Inductive built : Element -> Prop :=
| built_new (n : string) : built (newElement n)
| built_call (e : Element) (p : list nat) (m : Mutation) :
    built e -> built (update_at p (mutate m) e).

(** ** ExportProject and exportFilter *)

(** The closure [fn] of [ExportProject].  The [range] runs over the attribute
    slice as it was when the loop started, whatever the overrides do to the
    element meanwhile. *)
Definition fn (files : list string) (element : Element) : Element :=
  fold_left
    (fun element attr =>
       if String.eqb (Local (AttrName attr)) "Label" then
         if String.eqb (Value attr) "Sources" then overrideSources element files
         else if String.eqb (Value attr) "Headers" then overrideHeaders element files
         else element
       else element)
    (attributes element) element.

(** [for _, elm := range elmFilters.children]: the type assertion of [elm] to
    [*Element] and the index [attributes[0]] panic on a child that is not an
    element or has no attribute. *)
Fixpoint filterExists (path : string) (children : list Child) : Run bool :=
  match children with
  | [] => Done false
  | ChildElement (mkElement _ (a :: _) _) :: rest =>
      if String.eqb path (Value a) then Done true else filterExists path rest
  | _ :: _ => Panic
  end.

Definition idstr (space : UUID) (path : string) : string :=
  UUID_String (NewSHA1 space (bytes_of_string path)).

(** The filter declaration added for [path]. *)
Definition newFilter (space : UUID) (path : string) : Element :=
  AppendChild (AddAttribute (newElement "Filter") "Include" path)
              (AddCharData (newElement "UniqueIdentifier") ("{" ++ idstr space path ++ "}")).

(** The inner [for] loop of [exportFilter], from [path := name] on. *)
Fixpoint filterLoop (fuel : nat) (space : UUID) (path : string) (elmFilters : Element)
    : Run Element :=
  match fuel with
  | O => OutOfFuel
  | S fuel =>
      exists_ <- filterExists path (children elmFilters) ;;
      let elmFilters :=
        if negb exists_ then AppendChild elmFilters (newFilter space path)
        else elmFilters in
      let path := fst (Split path) in
      if (String.length path =? 0)%nat then Done elmFilters
      else filterLoop fuel space (String.substring 0 (String.length path - 1) path)
                      elmFilters
  end.

(** The entry added for [file]. *)
Definition newEntry (tag file name : string) : Element :=
  AppendChild (AddAttribute (newElement tag) "Include" file)
              (AddCharData (newElement "Filter") name).

(** The body of [for _, file := range files] in [exportFilter]; the state is
    the pair [(elmFilters, elmEntries)]. *)
Definition fileStep (space : UUID) (root : string) (st : Element * Element)
    (file : string) : Run (Element * Element) :=
  let '(elmFilters, elmEntries) := st in
  let file := FromSlash file in
  match Rel root (Dir file) with
  | None => Done st
  | Some dir =>
      let ext := Ext file in
      let '(name, tag) :=
        if String.eqb ext ".h" then (Join ["Header Files"; dir], "ClInclude")
        else (Join ["Source Files"; dir], "ClCompile") in
      let elmEntries := AppendChild elmEntries (newEntry tag file name) in
      elmFilters <- filterLoop (S (String.length name)) space name elmFilters ;;
      Done (elmFilters, elmEntries)
  end.

Fixpoint forEach {A S : Type} (step : S -> A -> Run S) (l : list A) (s : S) : Run S :=
  match l with
  | [] => Done s
  | x :: r => s' <- step s x ;; forEach step r s'
  end.

(** The two groupings after the loop over [files]. *)
Definition filterGroups (space : UUID) (root : string) (files : list string)
    : Run (Element * Element) :=
  forEach (fileStep space root) files (newElement "ItemGroup", newElement "ItemGroup").

Definition projectOf (groups : Element * Element) : Element :=
  mkElement (mkName "http://schemas.microsoft.com/developer/msbuild/2003" "Project")
            [mkAttr (mkName "" "ToolsVersion") "4.0"]
            [ChildElement (fst groups); ChildElement (snd groups)].

(** What the program can ask of its surroundings. *)
Record Env : Type := mkEnv {
  args0 : string;                               (* os.Args[0] *)
  getwd : option string;                        (* os.Getwd() *)
  open_read : string -> option Decoder;         (* os.OpenFile(_, O_RDONLY, _) *)
  open_write : string -> option (option nat)    (* os.OpenFile(_, O_CREATE|O_TRUNC, _) *)
}.

(** What the program does to its surroundings. *)
Inductive Event : Type :=
| Println (msg : string)
| WriteFile (path : string) (content : list Token).

(** [func exportFilter(files []string, outpath string)] *)
Definition exportFilter (env : Env) (files : list string) (outpath : string)
    : Run (list Event) :=
  match UUID_Parse UUIDSPACE with
  | None => Done []
  | Some space =>
      match Abs (getwd env) (Dir "./") with
      | None => Done [Println "An error occurred while getting root path."]
      | Some root =>
          groups <- filterGroups space root files ;;
          match open_write env outpath with
          | None => Done [Println "File opening error occurred while writing filters."]
          | Some room =>
              let '(enc, _) := Encode (projectOf groups) (NewEncoder room) in
              Done [WriteFile outpath (written enc)]
          end
      end
  end.

(** [filepath.ToSlash]: the identity where the separator is a slash. *)
Definition ToSlash (path : string) : string := path.

(** [func ExportProject(files []string, outdir, projname string)] *)
Definition ExportProject (env : Env) (files : list string) (outdir projname : string)
    : Run (list Event) :=
  match Abs (getwd env) (Dir (args0 env)) with
  | None => Done [Println "An error occurred while getting executable path."]
  | Some exepath =>
      match open_read env (Join [exepath; "template.vcxproj"]) with
      | None => Done [Println "File opening error occurred while reading project template."]
      | Some fp_in =>
          '(element, _) <- Decode fp_in (mkElement (mkName "" "") [] []) ;;
          let '(element, _) :=
            scanTemplate (fun e (_ : unit) => (fn files e, tt)) element tt in
          let outpath := Join [ToSlash outdir; projname ++ ".vcxproj"] in
          match open_write env outpath with
          | None => Done [Println "File opening error occurred while writing project file."]
          | Some room =>
              let '(enc, _) := Encode element (NewEncoder room) in
              events <- exportFilter env files (outpath ++ ".filters") ;;
              Done (WriteFile outpath (written enc) :: events)
          end
      end
  end.

(** ** Definitions that follow the specification's words *)

(** Specification: the list of entries a rewrite policy generates, one entry
    element per file with a recognised extension, each followed by a newline
    text. *)
Definition generatedEntries (accept : string -> bool) (tag : string)
    (files : list string) : list Child :=
  flat_map
    (fun file =>
       if accept (Ext file)
       then [ChildElement (mkElement (mkName "" tag)
                                     [mkAttr (mkName "" "Include") file] []);
             CharData newline]
       else [])
    files.

(** Specification: the elements the scanner hands to the callback, in document
    order: a matching element itself, otherwise the matches of its element
    children. *)
Fixpoint matches (e : Element) : list Element :=
  match e with
  | mkElement n _ cs =>
      if String.eqb (Local n) "ItemGroup" then [e]
      else
        (fix among (cs : list Child) : list Element :=
           match cs with
           | [] => []
           | ChildElement c :: rest => (matches c ++ among rest)%list
           | _ :: rest => among rest
           end) cs
  end.

(** Specification: the tree after a scan with a callback that only rewrites
    the element it is given. *)
Fixpoint rewriteMatches (f : Element -> Element) (e : Element) : Element :=
  match e with
  | mkElement n attrs cs =>
      if String.eqb (Local n) "ItemGroup" then f e
      else mkElement n attrs
             (map (fun c => match c with
                            | ChildElement x => ChildElement (rewriteMatches f x)
                            | _ => c
                            end) cs)
  end.

(** Specification: the path obtained by stripping the last segment, if there
    is a separator to strip at. *)
Definition parentPath (path : string) : option string :=
  let dir := fst (Split path) in
  if (String.length dir =? 0)%nat then None
  else Some (String.substring 0 (String.length dir - 1) dir).

(** Specification: a path followed by its ancestor prefixes, nearest first;
    [n] bounds the number of steps and the length of the path is enough. *)
Fixpoint ancestorsFrom (n : nat) (path : string) : list string :=
  match n with
  | O => [path]
  | S n =>
      path :: match parentPath path with
              | None => []
              | Some parent => ancestorsFrom n parent
              end
  end.

Definition ancestors (path : string) : list string :=
  ancestorsFrom (String.length path) path.

(** Specification: declare [path] unless it is declared already. *)
Definition addIfAbsent (declared : list string) (path : string) : list string :=
  if existsb (String.eqb path) declared then declared else (declared ++ [path])%list.

(** Specification: the category path and the entry tag of a file, if its
    directory can be made relative to the root. *)
Definition classify (root file : string) : option (string * string) :=
  match Rel root (Dir file) with
  | None => None
  | Some dir =>
      if String.eqb (Ext file) ".h"
      then Some (Join ["Header Files"; dir], "ClInclude")
      else Some (Join ["Source Files"; dir], "ClCompile")
  end.

(** Specification: the paths declared in the filters grouping once [files]
    have been processed, in the order of their declaration. *)
Definition declareFile (root : string) (declared : list string) (file : string)
    : list string :=
  match classify root file with
  | None => declared
  | Some (name, _) => fold_left addIfAbsent (ancestors name) declared
  end.

Definition declaredPaths (root : string) (files : list string) : list string :=
  fold_left (declareFile root) files [].

(** Specification: one entry per file whose directory resolves. *)
Definition entriesOf (root : string) (files : list string) : list Child :=
  flat_map
    (fun file =>
       match classify root file with
       | None => []
       | Some (name, tag) => [ChildElement (newEntry tag file name)]
       end)
    files.

Definition declarations (space : UUID) (paths : list string) : list Child :=
  map (fun path => ChildElement (newFilter space path)) paths.

Definition itemGroup (cs : list Child) : Element :=
  mkElement (mkName "" "ItemGroup") [] cs.

(** The 16 bytes of [UUIDSPACE]. *)
Definition UUIDSPACE_bytes : UUID :=
  match UUID_Parse UUIDSPACE with
  | Some space => space
  | None => []
  end.

(** The first attribute of a child, when it is an element that has one. *)
Definition firstAttribute (c : Child) : option Attr :=
  match c with
  | ChildElement (mkElement _ (a :: _) _) => Some a
  | _ => None
  end.

(** The invariant of the filters grouping: every child is an element whose
    first attribute is [Include]. *)
Definition isDeclaration (c : Child) : bool :=
  match firstAttribute c with
  | Some a => String.eqb (Local (AttrName a)) "Include"
  | None => false
  end.

Definition declarationsOnly (elmFilters : Element) : bool :=
  forallb isDeclaration (children elmFilters).

(** Modelled from the spec: what the bytes of a document keep of the tokens
    written.  The bytes do not tell where one text ends and the next begins, and
    an empty text leaves no byte: neighbouring texts are one run, empty texts
    are nothing. *)
Fixpoint normalize (ts : list Token) : list Token :=
  match ts with
  | [] => []
  | TokCharData s :: rest =>
      match normalize rest with
      | TokCharData s' :: rest' => TokCharData (s ++ s') :: rest'
      | r => if String.eqb s "" then r else TokCharData s :: r
      end
  | t :: rest => t :: normalize rest
  end.

(** Modelled from the spec: the document an element encodes to, on a sink
    that takes everything. *)
Definition encode (t : Element) : list Token :=
  normalize (written (fst (Encode t (NewEncoder None)))).

(** The tokens as the results of successive [d.Token()] calls. *)
Definition items (ts : list Token) : Decoder := map Tok ts.

(** Modelled from the spec: decoding the bytes of a document,
    [element := &Element{}] and [NewDecoder(_).Decode(&element)]. *)
Definition decode (document : list Token) : Run (Element * option error) :=
  Decode (items document) (mkElement (mkName "" "") [] []).

(** Neighbouring text children joined and empty ones dropped, with [f] applied
    to the element children. *)
Definition mergeWith (f : Element -> Element) : list Child -> list Child :=
  fix merge (cs : list Child) : list Child :=
    match cs with
    | [] => []
    | ChildElement c :: rest => ChildElement (f c) :: merge rest
    | CharData s :: rest =>
        match merge rest with
        | CharData s' :: rest' => CharData (s ++ s') :: rest'
        | r => if String.eqb s "" then r else CharData s :: r
        end
    | Comment s :: rest => Comment s :: merge rest
    end.

(** The tree as it reads back from its bytes: text runs joined at every
    level. *)
Fixpoint mergeTree (e : Element) : Element :=
  match e with
  | mkElement n attrs cs => mkElement n attrs (mergeWith mergeTree cs)
  end.

(** No empty text and no two neighbouring texts. *)
Fixpoint normal (ts : list Token) : bool :=
  match ts with
  | [] => true
  | TokCharData s :: rest =>
      negb (String.eqb s "")
      && match rest with
         | TokCharData _ :: _ => false
         | _ => true
         end
      && normal rest
  | _ :: rest => normal rest
  end.

(** Specification: start tag, children in stored order, end tag. *)
Fixpoint tokensOf (e : Element) : list Token :=
  match e with
  | mkElement n attrs cs =>
      StartElement n attrs
        :: ((fix among (cs : list Child) : list Token :=
               match cs with
               | [] => []
               | ChildElement c :: rest => tokensOf c ++ among rest
               | CharData s :: rest => TokCharData s :: among rest
               | Comment s :: rest => TokComment s :: among rest
               end) cs
            ++ [EndElement n])%list
  end.

Definition childTokens (c : Child) : list Token :=
  match c with
  | ChildElement e => tokensOf e
  | CharData s => [TokCharData s]
  | Comment s => [TokComment s]
  end.

(** The tree with [name.Space] emptied at every element, as [UnmarshalXML]
    leaves it. *)
Fixpoint stripNamespace (e : Element) : Element :=
  match e with
  | mkElement n attrs cs =>
      mkElement (mkName "" (Local n)) attrs
                (map (fun c => match c with
                               | ChildElement x => ChildElement (stripNamespace x)
                               | _ => c
                               end) cs)
  end.

(** No element of the tree has a namespace in its name. *)
Fixpoint noNamespace (e : Element) : bool :=
  match e with
  | mkElement n _ cs =>
      String.eqb (Space n) ""
      && forallb (fun c => match c with
                           | ChildElement x => noNamespace x
                           | _ => true
                           end) cs
  end.

(** Specification: the tokens [ts] leave the element being decoded open: no
    end tag among them closes it, [depth] being the number of elements opened
    inside it so far. *)
Fixpoint staysOpen (depth : nat) (ts : list Token) : bool :=
  match ts with
  | [] => true
  | StartElement _ _ :: rest => staysOpen (S depth) rest
  | EndElement _ :: rest =>
      match depth with
      | O => false
      | S depth => staysOpen depth rest
      end
  | _ :: rest => staysOpen depth rest
  end.

(** The sink after the tokens [ts] have been offered to it one by one. *)
Definition put (ts : list Token) (e : Encoder) : Encoder :=
  fold_left (fun e t => fst (EncodeToken t e)) ts e.

(** ** Further notions that follow the code's cases *)

(** An attribute on which the closure [fn] of [ExportProject] acts: local name
    [Label], value [Sources] or [Headers]. *)
Definition selectsPolicy (attr : Attr) : bool :=
  String.eqb (Local (AttrName attr)) "Label"
  && (String.eqb (Value attr) "Sources" || String.eqb (Value attr) "Headers").

(** The entries [fn] appends on account of one attribute. *)
Definition labelEntries (files : list string) (attr : Attr) : list Child :=
  if String.eqb (Local (AttrName attr)) "Label" then
    if String.eqb (Value attr) "Sources"
    then generatedEntries isSourceExt "ClCompile" files
    else if String.eqb (Value attr) "Headers"
    then generatedEntries isHeaderExt "ClInclude" files
    else []
  else [].

(** Tokens the [switch] of [UnmarshalXML] has a case for, and failures. *)
Definition recognised (i : Item) : bool :=
  match i with
  | Tok (ProcInst _ _) => false
  | Tok (Directive _) => false
  | _ => true
  end.

(** The element a sequence of calls on the root pointer builds. *)
Definition replay (n : string) (calls : list Mutation) : Element :=
  fold_left (fun e m => mutate m e) calls (newElement n).

Definition callAttributes (calls : list Mutation) : list Attr :=
  flat_map (fun m => match m with
                     | CallAddAttribute k v => [mkAttr (mkName "" k) v]
                     | _ => []
                     end) calls.

Definition callTokens (calls : list Mutation) : list Token :=
  flat_map (fun m => match m with
                     | CallAddAttribute _ _ => []
                     | CallAddChild c =>
                         [StartElement (mkName "" c) []; EndElement (mkName "" c)]
                     | CallAddCharData v => [TokCharData v]
                     end) calls.

(** What a sink with [room] keeps of a document. *)
Definition kept (room : option nat) (document : list Token) : list Token :=
  match room with
  | None => document
  | Some k => firstn k document
  end.

(** The path [ExportProject] writes the project to. *)
Definition projectPath (outdir projname : string) : string :=
  Join [ToSlash outdir; projname ++ ".vcxproj"].

(** ** Sample surroundings *)

(** A working directory [/work], a program in [/opt/tool], no template, and
    output files that take everything. *)
Definition sampleEnv : Env :=
  mkEnv "/opt/tool/msbuild" (Some "/work") (fun _ => None) (fun _ => Some None).

(** A template that stops being well formed inside its second grouping. *)
Definition brokenTemplate : Decoder :=
  [Tok (StartElement (mkName "" "Project") []);
   Tok (StartElement (mkName "" "ItemGroup") [mkAttr (mkName "" "Label") "Sources"]);
   Tok (EndElement (mkName "" "ItemGroup"));
   Tok (StartElement (mkName "" "ItemGroup") [mkAttr (mkName "" "Label") "Headers"]);
   Fail "XML syntax error"].

Definition brokenTemplateEnv : Env :=
  mkEnv "/opt/tool/msbuild" (Some "/work")
        (fun path => if String.eqb path "/opt/tool/template.vcxproj"
                     then Some brokenTemplate else None)
        (fun _ => Some None).

(** A tree built with the public operations. *)
Definition sampleTree : Element :=
  update_at [3] (mutate (CallAddCharData "a < b"))
    (update_at [3] (mutate (CallAddAttribute "Include" "x.cpp"))
       (update_at [] (mutate (CallAddChild "ClCompile"))
          (update_at [] (mutate (CallAddCharData " more"))
             (update_at [] (mutate (CallAddCharData ""))
                (update_at [] (mutate (CallAddCharData "text"))
                   (newElement "ItemGroup")))))).

(** ** Auxiliary notions of the proofs *)

(** What one call of the callback does to the state it threads along. *)
Definition visit {St : Type} (callback : Element -> St -> Element * St)
    (s : St) (m : Element) : St :=
  snd (callback m s).

(** A path element as [Clean] keeps it: not empty, no leading separator. *)
Definition plain_element (s : string) : Prop := rooted s = false /\ s <> "".

(** A sink that takes everything and has refused nothing. *)
Definition open_sink (e : Encoder) : Prop := room e = None /\ broken e = false.

Definition stripChild (c : Child) : Child :=
  match c with
  | ChildElement x => ChildElement (stripNamespace x)
  | _ => c
  end.

(** ** Induction over element trees *)

Section ElementInduction.

Variable P : Element -> Prop.

Definition child_holds (c : Child) : Prop :=
  match c with
  | ChildElement e => P e
  | _ => True
  end.

Hypothesis step :
  forall n attrs cs, Forall child_holds cs -> P (mkElement n attrs cs).

Fixpoint Element_tree_ind (e : Element) : P e :=
  match e with
  | mkElement n attrs cs =>
      step n attrs
        ((fix all (cs : list Child) : Forall child_holds cs :=
            match cs with
            | [] => Forall_nil _
            | c :: rest =>
                Forall_cons c
                  (match c return child_holds c with
                   | ChildElement x => Element_tree_ind x
                   | _ => I
                   end)
                  (all rest)
            end) cs)
  end.

End ElementInduction.

Unset Implicit Arguments.

(** * Properties *)

Open Scope list_scope.


(** ** The library models on known values *)

Example Clean_examples :
  map Clean ["abc//def//ghi"; "abc/./def"; "abc/def/../ghi/../jkl"; "abc/def/../../..";
             "/abc/def/../../.."; "/../abc"; "abc/../../././../def"; ""; "/"; "abc/"]
  = ["abc/def/ghi"; "abc/def"; "abc/jkl"; ".."; "/"; "/abc"; "../../def"; "."; "/"; "abc"].
Proof. reflexivity. Qed.

Example Dir_examples :
  map Dir ["/foo/bar/baz.js"; "/foo/bar/baz/"; "/dirty//path///"; "dev.txt"; "../todo.txt";
           ""; "./"; "src/a.cpp"]
  = ["/foo/bar"; "/foo/bar/baz"; "/dirty/path"; "."; ".."; "."; "."; "src"].
Proof. reflexivity. Qed.

Example Ext_examples :
  map Ext ["path.go"; "path.pb.go"; "a.dir/b"; "a.dir/b.go"; "a.dir/"; "a.cpp"; "d.txt"]
  = [".go"; ".go"; ""; ".go"; ""; ".cpp"; ".txt"].
Proof. reflexivity. Qed.

Example Join_examples :
  map Join [["a"; "b"; "c"]; ["a"; ""]; [""; "b"]; ["/"; "a"]; ["Source Files"; "."];
            ["Source Files"; "src"]; ["Header Files"; "../x"]]
  = ["a/b/c"; "a"; "b"; "/a"; "Source Files"; "Source Files/src"; "x"].
Proof. reflexivity. Qed.

Example Split_examples :
  map Split ["a/b"; "a/b/"; "a"; "/"; "Source Files/src"]
  = [("a/", "b"); ("a/b/", ""); ("", "a"); ("/", ""); ("Source Files/", "src")].
Proof. reflexivity. Qed.

Example Rel_examples :
  map (fun p => Rel (fst p) (snd p))
      [("a/b", "a/b"); ("a/b", "a/b/c/d"); ("a/b/c", "a/c/d"); ("a/b/c/d", "a/b");
       ("/a/b", "/a/b/c/d"); ("/a/b/c", "/a/c/d"); (".", "a/b"); ("..", ".");
       ("a", "/a"); ("/a", "a"); ("/work", "/work/src"); ("/work", "/work"); ("/work", "src")]
  = [Some "."; Some "c/d"; Some "../../c/d"; Some "../.."; Some "c/d"; Some "../../c/d";
     Some "a/b"; None; None; None; Some "src"; Some "."; None].
Proof. reflexivity. Qed.

Example sha1_examples :
  hex_encode (sha1 (bytes_of_string "abc")) = "a9993e364706816aba3e25717850c26c9cd0d89d"
  /\ hex_encode (sha1 (bytes_of_string ""))
     = "da39a3ee5e6b4b0d3255bfef95601890afd80709"
  /\ hex_encode
       (sha1 (bytes_of_string "abcdbcdecdefdefgefghfghighijhijkijkljklmklmnlmnomnopnopq"))
     = "84983e441c3bd26ebaae4aa1f95129e5e54670f1".
Proof. repeat split; vm_compute; reflexivity. Qed.

(** ** The section rewriter *)

Lemma overrideStep_fold (accept : string -> bool) (tag : string) (files : list string) :
  forall e,
    fold_left (overrideStep accept tag) files e
    = mkElement (name e) (attributes e)
                (children e ++ generatedEntries accept tag files).
Proof.
  induction files as [|file files IH]; intros [n a cs]; simpl.
  - now rewrite app_nil_r.
  - rewrite IH. unfold overrideStep, FromSlash.
    destruct (accept (Ext file)); simpl; [|reflexivity].
    now rewrite <- !app_assoc.
Qed.

Lemma overrideSources_eq (element : Element) (files : list string) :
  overrideSources element files
  = mkElement (name element) []
              (children element ++ generatedEntries isSourceExt "ClCompile" files).
Proof. unfold overrideSources. now rewrite overrideStep_fold. Qed.

Lemma overrideHeaders_eq (element : Element) (files : list string) :
  overrideHeaders element files
  = mkElement (name element) []
              (children element ++ generatedEntries isHeaderExt "ClInclude" files).
Proof. unfold overrideHeaders. now rewrite overrideStep_fold. Qed.

(** C1, as the code has it: both rewrite policies leave the element without
    attributes, keep its name and every child it had, in order, and append the
    generated entries behind them. *)
Theorem rewrite_clears_attributes_keeps_children :
  forall (element : Element) (files : list string),
    (attributes (overrideSources element files) = []
     /\ name (overrideSources element files) = name element
     /\ children (overrideSources element files)
        = children element ++ generatedEntries isSourceExt "ClCompile" files)
    /\ (attributes (overrideHeaders element files) = []
        /\ name (overrideHeaders element files) = name element
        /\ children (overrideHeaders element files)
           = children element ++ generatedEntries isHeaderExt "ClInclude" files).
Proof.
  intros. rewrite overrideSources_eq, overrideHeaders_eq. simpl. repeat split.
Qed.

(** C1, refuted as stated: an [ItemGroup] labelled [Sources] that holds a text
    child keeps that child through the Sources rewrite, so its content is not
    just the generated entries. *)
Lemma rewrite_keeps_original_child :
  let element :=
    mkElement (mkName "" "ItemGroup") [mkAttr (mkName "" "Label") "Sources"]
              [CharData "old"] in
  In (CharData "old") (children (overrideSources element ["a.cpp"]))
  /\ children (overrideSources element ["a.cpp"])
     <> generatedEntries isSourceExt "ClCompile" ["a.cpp"].
Proof.
  cbv zeta. split.
  - vm_compute. now left.
  - vm_compute. discriminate.
Qed.

(** C4: the Sources policy appends, in input order and without dropping
    repeats, one [ClCompile] entry with the single attribute [Include] and a
    newline text for every file whose extension is [.cpp] or [.cxx]; the Headers
    policy does so with [ClInclude] for [.h]; other files add nothing.  On
    [a.cpp, b.h, c.cxx, d.txt] that gives the entries for [a.cpp] and [c.cxx],
    respectively the one for [b.h]. *)
Theorem extension_filtering :
  (forall element files,
      children (overrideSources element files)
      = children element ++ generatedEntries isSourceExt "ClCompile" files)
  /\ (forall element files,
         children (overrideHeaders element files)
         = children element ++ generatedEntries isHeaderExt "ClInclude" files)
  /\ (forall ext, isSourceExt ext = true <-> ext = ".cpp" \/ ext = ".cxx")
  /\ (forall ext, isHeaderExt ext = true <-> ext = ".h")
  /\ children (overrideSources (newElement "ItemGroup") ["a.cpp"; "b.h"; "c.cxx"; "d.txt"])
     = [ChildElement (mkElement (mkName "" "ClCompile")
                                [mkAttr (mkName "" "Include") "a.cpp"] []);
        CharData newline;
        ChildElement (mkElement (mkName "" "ClCompile")
                                [mkAttr (mkName "" "Include") "c.cxx"] []);
        CharData newline]
  /\ children (overrideHeaders (newElement "ItemGroup") ["a.cpp"; "b.h"; "c.cxx"; "d.txt"])
     = [ChildElement (mkElement (mkName "" "ClInclude")
                                [mkAttr (mkName "" "Include") "b.h"] []);
        CharData newline].
Proof.
  split; [|split; [|split; [|split; [|split]]]].
  - intros. now rewrite overrideSources_eq.
  - intros. now rewrite overrideHeaders_eq.
  - intros ext. unfold isSourceExt.
    destruct (String.eqb_spec ext ".cpp"), (String.eqb_spec ext ".cxx"); simpl;
      intuition congruence.
  - intros ext. unfold isHeaderExt.
    destruct (String.eqb_spec ext ".h"); simpl; intuition congruence.
  - reflexivity.
  - reflexivity.
Qed.

(** ** The tree scanner *)

Section ScannerFacts.

Variable St : Type.
Variable callback : Element -> St -> Element * St.


Lemma scanTemplate_state (e : Element) :
  forall s, snd (scanTemplate callback e s) = fold_left (visit callback) (matches e) s.
Proof.
  induction e as [n attrs cs IH] using Element_tree_ind. intros s. simpl.
  destruct (String.eqb (Local n) "ItemGroup"); [reflexivity|].
  match goal with
  | |- snd (let '(cs', s') := ?range cs s in _) = fold_left _ (?among cs) s =>
      assert (H : forall s, snd (range cs s) = fold_left (visit callback) (among cs) s)
  end.
  { clear s. induction IH as [|c rest Hc _ IHrest]; intros s; [reflexivity|].
    destruct c as [x| |]; simpl in *.
    - rewrite fold_left_app, <- Hc.
      destruct (scanTemplate callback x s) as [c' s1]. simpl.
      rewrite <- IHrest.
      match goal with |- snd (let '(_, _) := ?r in _) = _ => now destruct r end.
    - rewrite <- IHrest.
      match goal with |- snd (let '(_, _) := ?r in _) = _ => now destruct r end.
    - rewrite <- IHrest.
      match goal with |- snd (let '(_, _) := ?r in _) = _ => now destruct r end. }
  rewrite <- H.
  match goal with |- snd (let '(_, _) := ?r in _) = _ => now destruct r end.
Qed.

End ScannerFacts.

Lemma scanTemplate_pure (f : Element -> Element) (e : Element) :
  scanTemplate (fun x (_ : unit) => (f x, tt)) e tt = (rewriteMatches f e, tt).
Proof.
  induction e as [n attrs cs IH] using Element_tree_ind. simpl.
  destruct (String.eqb (Local n) "ItemGroup"); [reflexivity|].
  match goal with
  | |- (let '(cs', s') := ?range cs tt in _) = (mkElement _ _ (map ?g cs), tt) =>
      assert (H : range cs tt = (map g cs, tt))
  end.
  { induction IH as [|c rest Hc _ IHrest]; [reflexivity|].
    destruct c as [x| |]; simpl in *.
    - now rewrite Hc, IHrest.
    - now rewrite IHrest.
    - now rewrite IHrest. }
  now rewrite H.
Qed.

(** C5: [scanTemplate] calls the callback exactly on the elements of
    [matches], in that order and each as it stands in the tree: an element named
    [ItemGroup] is handed over and not entered, any other element is searched
    through its element children in stored order, text and comment children
    are passed over.  With a callback that records what it is given the record
    is [matches]; with one that rewrites its element the tree changes at the
    matches and nowhere else. *)
Theorem scanner_contract :
  (forall (St : Type) (callback : Element -> St -> Element * St) (e : Element) (s : St),
      snd (scanTemplate callback e s)
      = fold_left (fun s m => snd (callback m s)) (matches e) s)
  /\ (forall e : Element,
         snd (scanTemplate (fun m log => (m, log ++ [m])) e []) = matches e)
  /\ (forall (f : Element -> Element) (e : Element),
         fst (scanTemplate (fun x (_ : unit) => (f x, tt)) e tt) = rewriteMatches f e)
  /\ (forall n attrs cs,
         matches (mkElement n attrs cs)
         = if String.eqb (Local n) "ItemGroup" then [mkElement n attrs cs]
           else flat_map (fun c => match c with
                                   | ChildElement x => matches x
                                   | _ => []
                                   end) cs).
Proof.
  split; [|split; [|split]].
  - intros. apply scanTemplate_state.
  - intros e. rewrite scanTemplate_state. unfold visit. simpl.
    assert (H : forall (l acc : list Element),
               fold_left (fun s m => s ++ [m]) l acc = acc ++ l).
    { induction l as [|m l IH]; intros acc; simpl.
      - now rewrite app_nil_r.
      - rewrite IH. now rewrite <- app_assoc. }
    apply H.
  - intros. now rewrite scanTemplate_pure.
  - intros. simpl. destruct (String.eqb (Local n) "ItemGroup"); [reflexivity|].
    induction cs as [|c rest IH]; [reflexivity|].
    destruct c; simpl; now rewrite IH.
Qed.

(** ** Strings and paths *)

Lemma length_string_of_list_ascii (l : list ascii) :
  String.length (string_of_list_ascii l) = List.length l.
Proof. induction l; simpl; congruence. Qed.

Lemma length_list_ascii_of_string (s : string) :
  List.length (list_ascii_of_string s) = String.length s.
Proof. induction s; simpl; congruence. Qed.

Lemma split_loop_length (rev_prefix : list ascii) :
  forall suffix,
    String.length (fst (split_loop rev_prefix suffix)) <= List.length rev_prefix.
Proof.
  induction rev_prefix as [|c r IH]; intros suffix; simpl; [lia|].
  destruct (IsPathSeparator c).
  - cbn [fst]. rewrite length_string_of_list_ascii, length_app, length_rev. simpl. lia.
  - specialize (IH (String c suffix)). lia.
Qed.

Lemma Split_length (path : string) :
  String.length (fst (Split path)) <= String.length path.
Proof.
  unfold Split. etransitivity; [apply split_loop_length|].
  now rewrite length_rev, length_list_ascii_of_string.
Qed.

Lemma length_substring_0 (s : string) :
  forall n, n <= String.length s -> String.length (String.substring 0 n s) = n.
Proof.
  induction s as [|c s IH]; intros [|n] H; simpl in *; try lia.
  rewrite IH; lia.
Qed.

Lemma parentPath_shorter (path parent : string) :
  parentPath path = Some parent -> String.length parent < String.length path.
Proof.
  unfold parentPath. pose proof (Split_length path) as Hl.
  destruct (Nat.eqb_spec (String.length (fst (Split path))) 0); [discriminate|].
  intros [= <-]. rewrite length_substring_0; lia.
Qed.

(** ** The filter hierarchy builder *)

Section FilterBuilder.

Variable space : UUID.

Lemma filterExists_declarations (path : string) (paths : list string) :
  filterExists path (declarations space paths)
  = Done (existsb (String.eqb path) paths).
Proof.
  induction paths as [|p paths IH]; simpl; [reflexivity|].
  destruct (String.eqb path p); [reflexivity|]. apply IH.
Qed.

Lemma declarations_addIfAbsent (paths : list string) (path : string) :
  (if negb (existsb (String.eqb path) paths)
   then AppendChild (itemGroup (declarations space paths)) (newFilter space path)
   else itemGroup (declarations space paths))
  = itemGroup (declarations space (addIfAbsent paths path)).
Proof.
  unfold addIfAbsent. destruct (existsb (String.eqb path) paths); simpl; [reflexivity|].
  unfold AppendChild, itemGroup, declarations. simpl. now rewrite map_app.
Qed.

(** The ancestor walk terminates within the length of the path, never
    panics on a grouping that holds declarations, and declares what is
    missing. *)
Lemma filterLoop_declarations (fuel : nat) :
  forall path paths,
    String.length path <= fuel ->
    filterLoop (S fuel) space path (itemGroup (declarations space paths))
    = Done (itemGroup (declarations space
              (fold_left addIfAbsent (ancestorsFrom fuel path) paths))).
Proof.
  induction fuel as [|fuel IH]; intros path paths Hlen.
  - destruct path; [|simpl in Hlen; lia].
    cbn [filterLoop]. change (children (itemGroup ?cs)) with cs.
    rewrite filterExists_declarations. cbn [bind].
    rewrite declarations_addIfAbsent. reflexivity.
  - cbn [filterLoop]. change (children (itemGroup ?cs)) with cs.
    rewrite filterExists_declarations. cbn [bind].
    rewrite declarations_addIfAbsent.
    cbn [ancestorsFrom fold_left].
    pose proof (parentPath_shorter path) as Hshort.
    unfold parentPath in *.
    destruct (String.length (fst (Split path)) =? 0)%nat; [reflexivity|].
    specialize (Hshort _ eq_refl).
    change (children (itemGroup ?cs)) with cs in IH.
    rewrite <- IH by lia. reflexivity.
Qed.

Lemma ancestorsFrom_fuel (k : nat) :
  forall j path,
    String.length path <= k -> String.length path <= j ->
    ancestorsFrom k path = ancestorsFrom j path.
Proof.
  induction k as [|k IH]; intros j path Hk Hj.
  - destruct path; [|simpl in Hk; lia]. now destruct j.
  - destruct j as [|j].
    + destruct path; [reflexivity|simpl in Hj; lia].
    + cbn [ancestorsFrom]. f_equal.
      destruct (parentPath path) as [parent|] eqn:Hp; [|reflexivity].
      apply parentPath_shorter in Hp. apply IH; lia.
Qed.

Lemma ancestorsFrom_enough (n : nat) (path : string) :
  String.length path <= n -> ancestorsFrom n path = ancestors path.
Proof. intros H. unfold ancestors. apply ancestorsFrom_fuel; lia. Qed.

Variable root : string.

Lemma fileStep_declarations (paths : list string) (entries : list Child)
    (file : string) :
  fileStep space root (itemGroup (declarations space paths), itemGroup entries) file
  = Done (itemGroup (declarations space (declareFile root paths file)),
          itemGroup (entries ++ entriesOf root [file])).
Proof.
  unfold fileStep, declareFile, entriesOf, FromSlash. cbn [flat_map].
  unfold classify.
  destruct (Rel root (Dir file)) as [dir|].
  - destruct (String.eqb (Ext file) ".h").
    + rewrite filterLoop_declarations by lia. cbn [bind].
      rewrite ancestorsFrom_enough by lia. rewrite app_nil_r. reflexivity.
    + rewrite filterLoop_declarations by lia. cbn [bind].
      rewrite ancestorsFrom_enough by lia. rewrite app_nil_r. reflexivity.
  - now rewrite !app_nil_r.
Qed.

Lemma forEach_fileStep (files : list string) :
  forall paths entries,
    forEach (fileStep space root) files
            (itemGroup (declarations space paths), itemGroup entries)
    = Done (itemGroup (declarations space (fold_left (declareFile root) files paths)),
            itemGroup (entries ++ entriesOf root files)).
Proof.
  induction files as [|file files IH]; intros paths entries.
  - simpl. now rewrite app_nil_r.
  - cbn [forEach]. rewrite fileStep_declarations. cbn [bind].
    rewrite IH. cbn [fold_left]. unfold entriesOf. cbn [flat_map].
    now rewrite app_nil_r, <- app_assoc.
Qed.

(** The loop over the files never panics and never runs out of fuel; it
    leaves the declared paths in the first grouping and the entries in the
    second. *)
Lemma filterGroups_eq (files : list string) :
  filterGroups space root files
  = Done (itemGroup (declarations space (declaredPaths root files)),
          itemGroup (entriesOf root files)).
Proof.
  unfold filterGroups. change (newElement "ItemGroup") with (itemGroup []).
  change (itemGroup []) with (itemGroup (declarations space [])) at 1.
  now rewrite forEach_fileStep.
Qed.

End FilterBuilder.

(** ** What is declared, and what is not *)

Lemma addIfAbsent_In (declared : list string) (path p : string) :
  In p (addIfAbsent declared path) <-> In p declared \/ p = path.
Proof.
  unfold addIfAbsent. destruct (existsb (String.eqb path) declared) eqn:E.
  - apply existsb_exists in E. destruct E as [q [Hq E]].
    apply String.eqb_eq in E. subst q. intuition congruence.
  - rewrite in_app_iff. simpl. intuition congruence.
Qed.

Lemma addIfAbsent_NoDup (declared : list string) (path : string) :
  NoDup declared -> NoDup (addIfAbsent declared path).
Proof.
  intros H. unfold addIfAbsent. destruct (existsb (String.eqb path) declared) eqn:E; [exact H|].
  apply NoDup_rev in H. rewrite <- (rev_involutive (declared ++ [path])).
  apply NoDup_rev. rewrite rev_app_distr. simpl. constructor; [|exact H].
  rewrite <- in_rev. intros Hin.
  assert (existsb (String.eqb path) declared = true); [|congruence].
  apply existsb_exists. exists path. split; [exact Hin|apply String.eqb_refl].
Qed.

Lemma fold_addIfAbsent_In (l : list string) :
  forall declared p,
    In p (fold_left addIfAbsent l declared) <-> In p declared \/ In p l.
Proof.
  induction l as [|x l IH]; intros declared p; simpl; [tauto|].
  rewrite IH, addIfAbsent_In. intuition congruence.
Qed.

Lemma fold_addIfAbsent_NoDup (l : list string) :
  forall declared, NoDup declared -> NoDup (fold_left addIfAbsent l declared).
Proof.
  induction l as [|x l IH]; intros declared H; simpl; [exact H|].
  apply IH, addIfAbsent_NoDup, H.
Qed.

Lemma declareFile_In (root : string) (declared : list string) (file p : string) :
  In p (declareFile root declared file)
  <-> In p declared
      \/ exists name tag, classify root file = Some (name, tag) /\ In p (ancestors name).
Proof.
  unfold declareFile. destruct (classify root file) as [[name tag]|].
  - rewrite fold_addIfAbsent_In. split.
    + intros [H|H]; [now left|right; eauto].
    + intros [H|[name' [tag' [[= <- <-] H]]]]; [now left|now right].
  - split; [now left|]. intros [H|[name [tag [H _]]]]; [exact H|discriminate].
Qed.

Lemma fold_declareFile_In (root : string) (files : list string) :
  forall declared p,
    In p (fold_left (declareFile root) files declared)
    <-> In p declared
        \/ exists file name tag,
             In file files /\ classify root file = Some (name, tag)
             /\ In p (ancestors name).
Proof.
  induction files as [|file files IH]; intros declared p; simpl.
  - split; [now left|]. intros [H|[file [name [tag [[] _]]]]]; exact H.
  - rewrite IH, declareFile_In. split.
    + intros [[H|[name [tag [Hc Ha]]]]|[f [name [tag [Hf [Hc Ha]]]]]].
      * now left.
      * right. exists file, name, tag. auto.
      * right. exists f, name, tag. auto.
    + intros [H|[f [name [tag [[<-|Hf] [Hc Ha]]]]]].
      * left. now left.
      * left. right. eauto.
      * right. exists f, name, tag. auto.
Qed.

Lemma fold_declareFile_NoDup (root : string) (files : list string) :
  forall declared, NoDup declared -> NoDup (fold_left (declareFile root) files declared).
Proof.
  induction files as [|file files IH]; intros declared H; simpl; [exact H|].
  apply IH. unfold declareFile. destruct (classify root file) as [[name tag]|]; [|exact H].
  apply fold_addIfAbsent_NoDup, H.
Qed.

Lemma declareFile_unresolvable (root : string) (declared : list string) (file : string) :
  Rel root (Dir file) = None -> declareFile root declared file = declared.
Proof. intros H. unfold declareFile, classify. now rewrite H. Qed.

Lemma entriesOf_app (root : string) (l1 l2 : list string) :
  entriesOf root (l1 ++ l2) = entriesOf root l1 ++ entriesOf root l2.
Proof. unfold entriesOf. apply flat_map_app. Qed.

Lemma declaredPaths_skip (root : string) (pre post : list string) (file : string) :
  Rel root (Dir file) = None ->
  declaredPaths root (pre ++ file :: post) = declaredPaths root (pre ++ post).
Proof.
  intros H. unfold declaredPaths. rewrite !fold_left_app. simpl.
  now rewrite declareFile_unresolvable.
Qed.

Lemma entriesOf_skip (root : string) (pre post : list string) (file : string) :
  Rel root (Dir file) = None ->
  entriesOf root (pre ++ file :: post) = entriesOf root (pre ++ post).
Proof.
  intros H. rewrite !entriesOf_app. f_equal.
  unfold entriesOf at 1. cbn [flat_map]. unfold classify. now rewrite H.
Qed.

(** C9: every file whose directory resolves against the root gets exactly one
    entry, in input order, whatever its extension; the extension [.h] selects
    [Header Files] and [ClInclude], any other one, recognised as a source
    or not, [Source Files] and [ClCompile]. *)
Theorem one_entry_per_resolvable_file :
  forall (space : UUID) (root : string) (files : list string),
    (exists filters,
        filterGroups space root files = Done (filters, itemGroup (entriesOf root files)))
    /\ entriesOf root files
       = flat_map
           (fun file =>
              match Rel root (Dir (FromSlash file)) with
              | None => []
              | Some dir =>
                  if String.eqb (Ext file) ".h"
                  then [ChildElement (newEntry "ClInclude" file (Join ["Header Files"; dir]))]
                  else [ChildElement (newEntry "ClCompile" file (Join ["Source Files"; dir]))]
              end) files
    /\ List.length (entriesOf root files)
       = List.length (filter (fun file => match Rel root (Dir (FromSlash file)) with
                                          | Some _ => true
                                          | None => false
                                          end) files)
    /\ entriesOf "/work" ["/work/doc/notes.txt"; "/work/inc/a.h"]
       = [ChildElement (newEntry "ClCompile" "/work/doc/notes.txt" "Source Files/doc");
          ChildElement (newEntry "ClInclude" "/work/inc/a.h" "Header Files/inc")].
Proof.
  intros space root files. split; [|split; [|split]].
  - eexists. apply filterGroups_eq.
  - unfold entriesOf. apply flat_map_ext. intros file.
    unfold classify, FromSlash. destruct (Rel root (Dir file)); [|reflexivity].
    now destruct (String.eqb (Ext file) ".h").
  - induction files as [|file files IH]; [reflexivity|].
    change (file :: files) with ([file] ++ files) at 1.
    rewrite entriesOf_app, length_app, IH. cbn [filter].
    unfold entriesOf, classify, FromSlash. cbn [flat_map].
    destruct (Rel root (Dir file)); [|reflexivity].
    now destruct (String.eqb (Ext file) ".h").
  - vm_compute. reflexivity.
Qed.

(** C7: a file whose directory cannot be made relative to the root leaves no
    trace: the run returns normally, prints and writes exactly what it would
    without that file, and the groupings are those of the list without it. *)
Theorem skip_on_unresolvable_path :
  forall (env : Env) (root : string) (pre post : list string) (file outpath : string),
    Abs (getwd env) (Dir "./") = Some root ->
    Rel root (Dir (FromSlash file)) = None ->
    exportFilter env (pre ++ file :: post) outpath = exportFilter env (pre ++ post) outpath
    /\ (exists events, exportFilter env (pre ++ file :: post) outpath = Done events)
    /\ (forall space,
           filterGroups space root (pre ++ file :: post)
           = filterGroups space root (pre ++ post))
    /\ entriesOf root (pre ++ file :: post) = entriesOf root (pre ++ post)
    /\ declaredPaths root (pre ++ file :: post) = declaredPaths root (pre ++ post).
Proof.
  intros env root pre post file outpath Hroot Hrel. unfold FromSlash in Hrel.
  assert (Hg : forall space,
             filterGroups space root (pre ++ file :: post)
             = filterGroups space root (pre ++ post)).
  { intros space. rewrite !filterGroups_eq.
    now rewrite declaredPaths_skip, entriesOf_skip. }
  split; [|split; [|split; [|split]]].
  - unfold exportFilter. destruct (UUID_Parse UUIDSPACE); [|reflexivity].
    rewrite Hroot. now rewrite Hg.
  - unfold exportFilter. destruct (UUID_Parse UUIDSPACE); [|eauto].
    rewrite Hroot, filterGroups_eq. cbn [bind].
    destruct (open_write env outpath); [|eauto].
    destruct (Encode _ _). eauto.
  - exact Hg.
  - now apply entriesOf_skip.
  - now apply declaredPaths_skip.
Qed.

Lemma skip_on_unresolvable_path_witness :
  exportFilter sampleEnv (["/work/src/a.cpp"] ++ "src/b.cpp" :: ["/work/inc/a.h"]) "p.filters"
  = exportFilter sampleEnv (["/work/src/a.cpp"] ++ ["/work/inc/a.h"]) "p.filters".
Proof.
  apply (skip_on_unresolvable_path sampleEnv "/work"
           ["/work/src/a.cpp"] ["/work/inc/a.h"] "src/b.cpp" "p.filters");
    vm_compute; reflexivity.
Defined.

(** ** Relative paths against an absolute root *)

Lemma split_sep_not_rooted (path : string) :
  Forall (fun s => rooted s = false) (split_sep path).
Proof.
  induction path as [|c r IH]; simpl.
  - constructor; [reflexivity|constructor].
  - destruct (IsPathSeparator c) eqn:E.
    + constructor; [reflexivity|exact IH].
    + destruct (split_sep r) as [|h t].
      * constructor; [exact E|constructor].
      * inversion IH; subst. constructor; [exact E|assumption].
Qed.


Lemma clean_step_plain (is_rooted : bool) (out : list string) (elem : string) :
  rooted elem = false ->
  Forall plain_element out -> Forall plain_element (clean_step is_rooted out elem).
Proof.
  intros He Hout. unfold clean_step.
  destruct (String.eqb_spec elem ""); [exact Hout|].
  destruct (String.eqb_spec elem "."); [exact Hout|].
  destruct (String.eqb_spec elem "..").
  - destruct out as [|top rest].
    + destruct is_rooted; [exact Hout|].
      constructor; [split; [reflexivity|discriminate]|constructor].
    + destruct (String.eqb top "..").
      * constructor; [split; [reflexivity|discriminate]|exact Hout].
      * now inversion Hout.
  - constructor; [split; assumption|exact Hout].
Qed.

Lemma fold_clean_step_plain (is_rooted : bool) (elems : list string) :
  forall out,
    Forall (fun s => rooted s = false) elems ->
    Forall plain_element out ->
    Forall plain_element (fold_left (clean_step is_rooted) elems out).
Proof.
  induction elems as [|e elems IH]; intros out He Hout; simpl; [exact Hout|].
  inversion He; subst. apply IH; [assumption|]. now apply clean_step_plain.
Qed.

Lemma rooted_append (s t : string) : s <> "" -> rooted (s ++ t)%string = rooted s.
Proof. destruct s; [congruence|reflexivity]. Qed.

Lemma join_sep_not_rooted (l : list string) :
  Forall plain_element l -> rooted (join_sep l) = false.
Proof.
  intros H. destruct H as [|x l [Hx Hne] Hl]; [reflexivity|].
  unfold join_sep. simpl. destruct l; [exact Hx|].
  now rewrite rooted_append.
Qed.

Lemma Clean_rooted (path : string) : rooted (Clean path) = rooted path.
Proof.
  unfold Clean. destruct (String.eqb_spec path ""); [now subst|].
  destruct (rooted path) eqn:E; [reflexivity|].
  assert (H : rooted (join_sep (rev (fold_left (clean_step false) (split_sep path) []))) = false).
  { apply join_sep_not_rooted, Forall_rev, fold_clean_step_plain.
    - apply split_sep_not_rooted.
    - constructor. }
  destruct (String.eqb _ ""); [reflexivity|exact H].
Qed.

Lemma rooted_prefix (l : list ascii) (n : nat) :
  rooted (string_of_list_ascii (firstn n l)) = true ->
  rooted (string_of_list_ascii l) = true.
Proof. destruct n, l; simpl; auto; discriminate. Qed.

Lemma split_loop_prefix (rev_prefix : list ascii) :
  forall suffix, exists k,
    fst (split_loop rev_prefix suffix) = string_of_list_ascii (rev (skipn k rev_prefix)).
Proof.
  induction rev_prefix as [|c r IH]; intros suffix; simpl.
  - exists 0. reflexivity.
  - destruct (IsPathSeparator c).
    + exists 0. reflexivity.
    + destruct (IH (String c suffix)) as [k Hk]. exists (S k). exact Hk.
Qed.

Lemma Split_rooted (path : string) :
  rooted (fst (Split path)) = true -> rooted path = true.
Proof.
  unfold Split.
  destruct (split_loop_prefix (rev (list_ascii_of_string path)) "") as [k ->].
  rewrite skipn_rev, rev_involutive. intros H.
  apply rooted_prefix in H. now rewrite string_of_list_ascii_of_string in H.
Qed.

(** Against the root the code computes, which is absolute because the working
    directory is, no relative file path resolves. *)
Lemma relative_path_unresolvable (wd root file : string) :
  rooted wd = true ->
  rooted file = false ->
  Abs (Some wd) (Dir "./") = Some root ->
  Rel root (Dir (FromSlash file)) = None.
Proof.
  intros Hwd Hfile Hroot.
  assert (Hr : rooted root = true).
  { change (Dir "./") with "." in Hroot. unfold Abs in Hroot. simpl in Hroot.
    destruct wd as [|c wd]; [discriminate|]. simpl in Hroot.
    injection Hroot as <-. rewrite Clean_rooted. exact Hwd. }
  assert (Hd : rooted (Dir file) = false).
  { unfold Dir. rewrite Clean_rooted.
    destruct (rooted (fst (Split file))) eqn:E; [|reflexivity].
    apply Split_rooted in E. congruence. }
  unfold Rel, FromSlash.
  pose proof (Clean_rooted root) as Hb. pose proof (Clean_rooted (Dir file)) as Ht.
  rewrite Hr in Hb. rewrite Hd in Ht.
  destruct (String.eqb_spec (Clean (Dir file)) (Clean root)) as [E|_]; [congruence|].
  destruct (String.eqb_spec (Clean root) ".") as [E|_].
  { rewrite E in Hb. discriminate. }
  now rewrite Hb, Ht.
Qed.

(** ** The invariant of the filters grouping *)

Lemma declarations_only (space : UUID) (paths : list string) :
  declarationsOnly (itemGroup (declarations space paths)) = true.
Proof. unfold declarationsOnly. simpl. induction paths; simpl; auto. Qed.

Lemma filterExists_safe (path : string) (elmFilters : Element) :
  declarationsOnly elmFilters = true ->
  filterExists path (children elmFilters)
  = Done (existsb (fun c => match firstAttribute c with
                            | Some a => String.eqb path (Value a)
                            | None => false
                            end) (children elmFilters)).
Proof.
  unfold declarationsOnly. generalize (children elmFilters). intros cs.
  induction cs as [|c cs IH]; simpl; [reflexivity|].
  intros H. apply andb_prop in H. destruct H as [Hc Hcs].
  destruct c as [[n [|a attrs] sub]| |]; try discriminate. simpl.
  destruct (String.eqb path (Value a)); [reflexivity|]. now apply IH.
Qed.

Lemma declarationsOnly_step (space : UUID) (path : string) (elmFilters : Element) :
  declarationsOnly elmFilters = true ->
  declarationsOnly (AppendChild elmFilters (newFilter space path)) = true.
Proof.
  unfold declarationsOnly. simpl. intros H. rewrite forallb_app, H. reflexivity.
Qed.

(** C10: after any number of files the loop has neither panicked nor run
    out of fuel, and every child of the filters grouping is an element whose
    first attribute is the [Include] attribute holding its path; on such a
    grouping the existence check returns, and it says whether some child has
    the path as the value of its first attribute; adding a declaration keeps
    the grouping that way. *)
Theorem filters_grouping_invariant :
  forall (space : UUID) (root : string) (files : list string) (n : nat),
    exists filters entries,
      filterGroups space root (firstn n files) = Done (filters, entries)
      /\ declarationsOnly filters = true
      /\ Forall (fun c => exists path sub,
                     c = ChildElement
                           (mkElement (mkName "" "Filter")
                                      [mkAttr (mkName "" "Include") path] sub))
                (children filters)
      /\ (forall path,
             filterExists path (children filters)
             = Done (existsb (fun c => match firstAttribute c with
                                       | Some a => String.eqb path (Value a)
                                       | None => false
                                       end) (children filters)))
      /\ (forall path,
             declarationsOnly (AppendChild filters (newFilter space path)) = true).
Proof.
  intros space root files n. do 2 eexists.
  split; [apply filterGroups_eq|].
  pose proof (declarations_only space (declaredPaths root (firstn n files))) as Hinv.
  split; [exact Hinv|]. split; [|split].
  - simpl. apply Forall_forall. intros c Hc. unfold declarations in Hc.
    apply in_map_iff in Hc. destruct Hc as [path [<- _]]. do 2 eexists. reflexivity.
  - intros path. now apply filterExists_safe.
  - intros path. now apply declarationsOnly_step.
Qed.

(** C3, as the code has it: on the absolute paths [/work/src/a.cpp],
    [/work/src/b.cpp], [/work/inc/a.h] under the working directory [/work] the
    filters grouping declares [Source Files/src], [Source Files],
    [Header Files/inc], [Header Files], each once.  For every input the
    grouping holds the declarations of [declaredPaths], which has no repeats
    and consists of the category paths of the resolvable files and their
    ancestor prefixes; a path is added only when the paths declared so far do
    not contain it.  Under an absolute working directory relative file paths
    declare nothing. *)
Theorem filter_deduplication :
  Abs (Some "/work") (Dir "./") = Some "/work"
  /\ declaredPaths "/work" ["/work/src/a.cpp"; "/work/src/b.cpp"; "/work/inc/a.h"]
     = ["Source Files/src"; "Source Files"; "Header Files/inc"; "Header Files"]
  /\ (forall (space : UUID) (root : string) (files : list string),
         exists entries,
           filterGroups space root files
           = Done (itemGroup (declarations space (declaredPaths root files)), entries))
  /\ (forall root files, NoDup (declaredPaths root files))
  /\ (forall root files p,
         In p (declaredPaths root files)
         <-> exists file name tag,
               In file files /\ classify root file = Some (name, tag)
               /\ In p (ancestors name))
  /\ (forall space fuel path paths,
         String.length path <= fuel ->
         filterLoop (S fuel) space path (itemGroup (declarations space paths))
         = Done (itemGroup (declarations space
                   (fold_left addIfAbsent (ancestors path) paths))))
  /\ (forall declared path,
         addIfAbsent declared path
         = if existsb (String.eqb path) declared then declared else declared ++ [path])
  /\ ancestors "Source Files/src/deep" = ["Source Files/src/deep"; "Source Files/src"; "Source Files"]
  /\ (forall wd root files,
         rooted wd = true ->
         Abs (Some wd) (Dir "./") = Some root ->
         forallb (fun file => negb (rooted file)) files = true ->
         declaredPaths root files = []).
Proof.
  split; [vm_compute; reflexivity|].
  split; [vm_compute; reflexivity|].
  split; [intros; eexists; apply filterGroups_eq|].
  split; [intros; apply fold_declareFile_NoDup; constructor|].
  split.
  { intros root files p. unfold declaredPaths. rewrite fold_declareFile_In.
    split; [intros [[]|H]; exact H|intros H; now right]. }
  split.
  { intros space fuel path paths H. rewrite filterLoop_declarations by exact H.
    now rewrite ancestorsFrom_enough. }
  split; [reflexivity|].
  split; [vm_compute; reflexivity|].
  intros wd root files Hwd Hroot Hfiles. unfold declaredPaths.
  induction files as [|file files IH]; [reflexivity|].
  simpl in Hfiles. apply andb_prop in Hfiles. destruct Hfiles as [Hf Hfs].
  cbn [fold_left]. rewrite declareFile_unresolvable; [now apply IH|].
  apply (relative_path_unresolvable wd root file Hwd); [|exact Hroot].
  now destruct (rooted file).
Qed.

Lemma filter_deduplication_witness :
  filterLoop 17 UUIDSPACE_bytes "Source Files/src"
             (itemGroup (declarations UUIDSPACE_bytes ["Source Files"]))
  = Done (itemGroup (declarations UUIDSPACE_bytes ["Source Files"; "Source Files/src"])).
Proof.
  refine (eq_trans
            (proj1 (proj2 (proj2 (proj2 (proj2 (proj2 filter_deduplication)))))
                   UUIDSPACE_bytes 16 "Source Files/src" ["Source Files"] _) _).
  - simpl. lia.
  - vm_compute. reflexivity.
Defined.

(** C3, refuted as stated: the root is the absolute working directory, so the
    relative paths [src/a.cpp], [src/b.cpp], [inc/a.h] are all skipped and the
    filter document is written with two empty groupings: none of the four
    declarations is there. *)
Lemma relative_files_declare_nothing :
  exportFilter sampleEnv ["src/a.cpp"; "src/b.cpp"; "inc/a.h"] "p.vcxproj.filters"
  = Done [WriteFile "p.vcxproj.filters"
            [StartElement
               (mkName "http://schemas.microsoft.com/developer/msbuild/2003" "Project")
               [mkAttr (mkName "" "ToolsVersion") "4.0"];
             StartElement (mkName "" "ItemGroup") [];
             EndElement (mkName "" "ItemGroup");
             StartElement (mkName "" "ItemGroup") [];
             EndElement (mkName "" "ItemGroup");
             EndElement
               (mkName "http://schemas.microsoft.com/developer/msbuild/2003" "Project")]]
  /\ Abs (getwd sampleEnv) (Dir "./") = Some "/work"
  /\ declaredPaths "/work" ["src/a.cpp"; "src/b.cpp"; "inc/a.h"] = []
  /\ ~ In "Source Files/src" (declaredPaths "/work" ["src/a.cpp"; "src/b.cpp"; "inc/a.h"]).
Proof.
  split; [vm_compute; reflexivity|].
  split; [vm_compute; reflexivity|].
  split; [vm_compute; reflexivity|].
  vm_compute. intros H. exact H.
Qed.

(** ** Stable identifiers *)

Lemma sha1_length (msg : list byte) : List.length (sha1 msg) = 20.
Proof.
  unfold sha1.
  destruct (fold_left sha1_block _ sha1_init) as [[[[h0 h1] h2] h3] h4].
  reflexivity.
Qed.

(** The digest byte by byte, and the identifier made from it. *)
Lemma NewSHA1_bytes (space : UUID) (data : list byte) :
  exists b0 b1 b2 b3 b4 b5 b6 b7 b8 b9 b10 b11 b12 b13 b14 b15 b16 b17 b18 b19,
    sha1 (space ++ data)
    = [b0; b1; b2; b3; b4; b5; b6; b7; b8; b9; b10; b11; b12; b13; b14; b15;
       b16; b17; b18; b19]
    /\ NewSHA1 space data
       = [b0; b1; b2; b3; b4; b5; N.lor (N.land b6 15) 80; b7;
          N.lor (N.land b8 63) 128; b9; b10; b11; b12; b13; b14; b15].
Proof.
  unfold NewSHA1. pose proof (sha1_length (space ++ data)) as H.
  destruct (sha1 (space ++ data)) as [|b0 s]; [discriminate|].
  do 19 (destruct s as [|? s]; [discriminate|]).
  destruct s; [|discriminate].
  repeat eexists.
Qed.

Lemma version_nibble (b : N) : N.shiftr (N.lor (N.land b 15) 80) 4 = 5%N.
Proof.
  rewrite N.shiftr_lor, N.shiftr_land. change (N.shiftr 15 4) with 0%N.
  now rewrite N.land_0_r.
Qed.

Lemma variant_bits (b : N) : N.shiftr (N.lor (N.land b 63) 128) 6 = 2%N.
Proof.
  rewrite N.shiftr_lor, N.shiftr_land. change (N.shiftr 63 6) with 0%N.
  now rewrite N.land_0_r.
Qed.

(** C6: the identifier written for a path is [idstr space path] in braces,
    whatever the files, their order and the root: it depends on the namespace
    and the path alone, so two runs give a path the same declaration.  It is
    the 16 leading bytes of the SHA-1 digest of the namespace followed by the
    bytes of the path, with version 5 and the RFC 4122 variant; two paths
    share an identifier only if those digests agree on every bit that is
    kept. *)
Theorem identifier_determinism :
  (forall (space : UUID) (root : string) (files : list string),
      exists paths entries,
        filterGroups space root files
        = Done (itemGroup
                  (map (fun path =>
                          ChildElement
                            (mkElement (mkName "" "Filter")
                               [mkAttr (mkName "" "Include") path]
                               [ChildElement
                                  (mkElement (mkName "" "UniqueIdentifier") []
                                     [CharData
                                        ("{" ++ UUID_String
                                                  (NewSHA1 space (bytes_of_string path))
                                             ++ "}")%string])]))
                       paths),
                entries))
  /\ (forall (space : UUID) (root1 root2 : string) (files1 files2 : list string)
             (filters1 filters2 entries1 entries2 : Element) (c1 c2 : Child) (a1 a2 : Attr),
         filterGroups space root1 files1 = Done (filters1, entries1) ->
         filterGroups space root2 files2 = Done (filters2, entries2) ->
         In c1 (children filters1) -> In c2 (children filters2) ->
         firstAttribute c1 = Some a1 -> firstAttribute c2 = Some a2 ->
         Value a1 = Value a2 ->
         c1 = c2)
  /\ (forall (space : UUID) (data : list byte),
         let u := NewSHA1 space data in
         let digest := sha1 (space ++ data) in
         List.length u = 16
         /\ N.shiftr (nth 6 u 0%N) 4 = 5%N
         /\ N.shiftr (nth 8 u 0%N) 6 = 2%N
         /\ N.land (nth 6 u 0%N) 15 = N.land (nth 6 digest 0%N) 15
         /\ N.land (nth 8 u 0%N) 63 = N.land (nth 8 digest 0%N) 63
         /\ (forall i, i < 16 -> i <> 6 -> i <> 8 -> nth i u 0%N = nth i digest 0%N))
  /\ (forall (space : UUID) (data1 data2 : list byte),
         NewSHA1 space data1 = NewSHA1 space data2 ->
         forall i, i < 16 ->
           if (i =? 6)%nat
           then N.land (nth i (sha1 (space ++ data1)) 0%N) 15
                = N.land (nth i (sha1 (space ++ data2)) 0%N) 15
           else if (i =? 8)%nat
           then N.land (nth i (sha1 (space ++ data1)) 0%N) 63
                = N.land (nth i (sha1 (space ++ data2)) 0%N) 63
           else nth i (sha1 (space ++ data1)) 0%N = nth i (sha1 (space ++ data2)) 0%N)
  /\ option_map (fun space => UUID_String (NewSHA1 space (bytes_of_string "python.org")))
                (UUID_Parse "6ba7b810-9dad-11d1-80b4-00c04fd430c8")
     = Some "886313e1-3b8a-5372-9b90-0c9aee199e5d"
  /\ idstr UUIDSPACE_bytes "Source Files" = "82145d29-12ca-595f-90d3-81f96ad47c79".
Proof.
  split; [|split; [|split; [|split; [|split]]]].
  - intros. do 2 eexists. rewrite filterGroups_eq. reflexivity.
  - intros space root1 root2 files1 files2 f1 f2 e1 e2 c1 c2 a1 a2 H1 H2 Hc1 Hc2 Ha1 Ha2 Hv.
    rewrite filterGroups_eq in H1, H2.
    injection H1 as <- _. injection H2 as <- _. simpl in Hc1, Hc2.
    unfold declarations in Hc1, Hc2.
    apply in_map_iff in Hc1. destruct Hc1 as [p1 [<- _]].
    apply in_map_iff in Hc2. destruct Hc2 as [p2 [<- _]].
    simpl in Ha1, Ha2. injection Ha1 as <-. injection Ha2 as <-.
    simpl in Hv. now subst p2.
  - intros space data u digest. subst u digest.
    destruct (NewSHA1_bytes space data)
      as (b0&b1&b2&b3&b4&b5&b6&b7&b8&b9&b10&b11&b12&b13&b14&b15&b16&b17&b18&b19&Hd&Hu).
    rewrite Hd, Hu. cbn [nth List.length].
    split; [reflexivity|]. split; [apply version_nibble|]. split; [apply variant_bits|].
    split.
    { rewrite N.land_lor_distr_l, <- N.land_assoc. change (N.land 15 15) with 15%N.
      change (N.land 80 15) with 0%N. apply N.lor_0_r. }
    split.
    { rewrite N.land_lor_distr_l, <- N.land_assoc. change (N.land 63 63) with 63%N.
      change (N.land 128 63) with 0%N. apply N.lor_0_r. }
    intros i Hi H6 H8.
    do 16 (destruct i as [|i]; [try reflexivity; congruence|]). lia.
  - intros space data1 data2 Heq i Hi.
    destruct (NewSHA1_bytes space data1)
      as (b0&b1&b2&b3&b4&b5&b6&b7&b8&b9&b10&b11&b12&b13&b14&b15&b16&b17&b18&b19&Hd&Hu).
    destruct (NewSHA1_bytes space data2)
      as (c0&c1&c2&c3&c4&c5&c6&c7&c8&c9&c10&c11&c12&c13&c14&c15&c16&c17&c18&c19&Hd'&Hu').
    rewrite Hu, Hu' in Heq. rewrite Hd, Hd'.
    injection Heq as -> -> -> -> -> -> E6 -> E8 -> -> -> -> -> -> ->.
    assert (H6 : N.land b6 15 = N.land c6 15).
    { apply (f_equal (fun x => N.land x 15)) in E6.
      rewrite !N.land_lor_distr_l, <- !N.land_assoc in E6.
      change (N.land 15 15) with 15%N in E6. change (N.land 80 15) with 0%N in E6.
      now rewrite !N.lor_0_r in E6. }
    assert (H8 : N.land b8 63 = N.land c8 63).
    { apply (f_equal (fun x => N.land x 63)) in E8.
      rewrite !N.land_lor_distr_l, <- !N.land_assoc in E8.
      change (N.land 63 63) with 63%N in E8. change (N.land 128 63) with 0%N in E8.
      now rewrite !N.lor_0_r in E8. }
    do 16 (destruct i as [|i]; [simpl; first [reflexivity|assumption]|]). lia.
  - vm_compute. reflexivity.
  - vm_compute. reflexivity.
Qed.

Lemma identifier_determinism_witness :
  ChildElement (newFilter UUIDSPACE_bytes "Source Files")
  = ChildElement (newFilter UUIDSPACE_bytes "Source Files").
Proof.
  refine (proj1 (proj2 identifier_determinism) UUIDSPACE_bytes "/work" "/srv"
            ["/work/a.cpp"; "/work/src/b.cpp"] ["/srv/src/z.cpp"]
            _ _ _ _ _ _ (mkAttr (mkName "" "Include") "Source Files")
            (mkAttr (mkName "" "Include") "Source Files") _ _ _ _ _ _ _).
  - apply filterGroups_eq.
  - apply filterGroups_eq.
  - vm_compute. left. reflexivity.
  - vm_compute. right. left. reflexivity.
  - reflexivity.
  - reflexivity.
  - reflexivity.
Defined.

(** ** Encoding and decoding *)

Lemma tokensOf_eq (n : Name) (attrs : list Attr) (cs : list Child) :
  tokensOf (mkElement n attrs cs)
  = StartElement n attrs :: flat_map childTokens cs ++ [EndElement n].
Proof.
  simpl. do 2 f_equal.
  induction cs as [|c cs IH]; [reflexivity|].
  destruct c; simpl; now rewrite IH.
Qed.


Lemma EncodeToken_open (t : Token) (e : Encoder) :
  open_sink e ->
  EncodeToken t e = (mkEncoder (written e ++ [t]) None false, None).
Proof. intros [Hr Hb]. unfold EncodeToken. now rewrite Hb, Hr. Qed.

(** On a sink that takes everything [MarshalXML] writes the tokens of the
    element and returns no error. *)
Lemma MarshalXML_open (t : Element) :
  forall e, open_sink e ->
    MarshalXML t e = (mkEncoder (written e ++ tokensOf t) None false, None).
Proof.
  induction t as [n attrs cs IH] using Element_tree_ind. intros e He.
  rewrite tokensOf_eq. cbn [MarshalXML].
  rewrite (EncodeToken_open _ _ He). cbn [fst].
  set (e1 := mkEncoder (written e ++ [StartElement n attrs]) None false).
  assert (H1 : open_sink e1) by (split; reflexivity).
  replace (written e ++ StartElement n attrs :: flat_map childTokens cs ++ [EndElement n])
    with (written e1 ++ flat_map childTokens cs ++ [EndElement n])
    by (subst e1; simpl; now rewrite <- app_assoc).
  clearbody e1. clear e He.
  revert e1 H1. induction IH as [|c rest Hc _ IHrest]; intros e1 H1.
  - rewrite (EncodeToken_open _ _ H1). reflexivity.
  - destruct c as [x| |]; cbn [flat_map childTokens].
    + simpl in Hc. rewrite (Hc e1 H1). cbn [finishEncode broken].
      rewrite IHrest by (split; reflexivity). cbn [written].
      now rewrite <- !app_assoc.
    + rewrite (EncodeToken_open _ _ H1). cbn [fst].
      rewrite IHrest by (split; reflexivity). cbn [written].
      now rewrite <- !app_assoc.
    + rewrite (EncodeToken_open _ _ H1). cbn [fst].
      rewrite IHrest by (split; reflexivity). cbn [written].
      now rewrite <- !app_assoc.
Qed.

Lemma encode_tokensOf (t : Element) : encode t = normalize (tokensOf t).
Proof.
  unfold encode, Encode. rewrite MarshalXML_open by (split; reflexivity). reflexivity.
Qed.

(** Reading back the tokens of the children of an element, up to its end
    tag, appends those children, and leaves what follows the end tag. *)
Lemma unmarshalLoop_children (cs : list Child) :
  Forall (child_holds (fun c =>
            forall fuel rest out endname,
              List.length (flat_map childTokens (children c)) < fuel ->
              unmarshalLoop fuel out
                (items (flat_map childTokens (children c))
                   ++ Tok (EndElement endname) :: rest)
              = Done (mkElement (name out) (attributes out)
                                (children out ++ map stripChild (children c)),
                      rest, None))) cs ->
  forall fuel rest out endname,
    List.length (flat_map childTokens cs) < fuel ->
    unmarshalLoop fuel out
      (items (flat_map childTokens cs) ++ Tok (EndElement endname) :: rest)
    = Done (mkElement (name out) (attributes out) (children out ++ map stripChild cs),
            rest, None).
Proof.
  induction 1 as [|c cs Hc _ IH]; intros fuel rest out endname Hfuel.
  - destruct fuel; [simpl in Hfuel; lia|]. destruct out. simpl.
    now rewrite app_nil_r.
  - destruct fuel; [simpl in Hfuel; lia|].
    destruct c as [[n attrs sub]| |]; cbn [flat_map childTokens] in *.
    + rewrite tokensOf_eq in *. unfold items in *.
      rewrite length_app in Hfuel. simpl in Hfuel. rewrite length_app in Hfuel.
      simpl in Hfuel.
      rewrite map_app. cbn [map app]. rewrite map_app. cbn [map].
      rewrite <- !app_assoc. cbn [app unmarshalLoop DecoderToken].
      simpl in Hc. rewrite Hc by lia. cbn [bind].
      rewrite IH by lia. destruct out. simpl.
      now rewrite <- app_assoc.
    + unfold items in *. simpl in Hfuel. cbn [map app unmarshalLoop DecoderToken].
      rewrite IH by lia. destruct out. simpl. now rewrite <- app_assoc.
    + unfold items in *. simpl in Hfuel. cbn [map app unmarshalLoop DecoderToken].
      rewrite IH by lia. destruct out. simpl. now rewrite <- app_assoc.
Qed.

Lemma unmarshalLoop_element (t : Element) :
  forall fuel rest out endname,
    List.length (flat_map childTokens (children t)) < fuel ->
    unmarshalLoop fuel out
      (items (flat_map childTokens (children t)) ++ Tok (EndElement endname) :: rest)
    = Done (mkElement (name out) (attributes out)
                      (children out ++ map stripChild (children t)),
            rest, None).
Proof.
  induction t as [n attrs cs IH] using Element_tree_ind.
  cbn [children]. now apply unmarshalLoop_children.
Qed.

(** Decoding the tokens of an element gives the element with its namespaces
    emptied. *)
Lemma Decode_tokensOf (t : Element) :
  Decode (items (tokensOf t)) (mkElement (mkName "" "") [] [])
  = Done (stripNamespace t, None).
Proof.
  destruct t as [n attrs cs]. rewrite tokensOf_eq.
  unfold items. cbn [map Decode]. unfold UnmarshalXML. cbn [children].
  rewrite map_app. cbn [map].
  pose proof (unmarshalLoop_element (mkElement n attrs cs)) as H.
  cbn [children] in H. unfold items in H.
  rewrite H by (rewrite length_app, length_map; simpl; lia).
  reflexivity.
Qed.

(** *** Text runs *)

Lemma append_empty (s s' : string) : (s ++ s')%string = "" -> s' = "".
Proof. destruct s; [auto|discriminate]. Qed.

Lemma normalize_normal (ts : list Token) : normal (normalize ts) = true.
Proof.
  induction ts as [|t ts IH]; [reflexivity|].
  destruct t as [n attr|n|s|s|target inst|s]; simpl; try exact IH.
  destruct (normalize ts) as [|[n attr|n|s'|s'|target inst|s'] r] eqn:E;
    try (destruct (String.eqb_spec s ""); [exact IH|];
         simpl; destruct (String.eqb_spec s ""); [contradiction|]; exact IH).
  simpl in IH |- *.
  destruct (String.eqb_spec s' ""); [discriminate|].
  destruct (String.eqb_spec (s ++ s') ""); [|exact IH].
  apply append_empty in e. contradiction.
Qed.

Lemma normal_fixed (ts : list Token) : normal ts = true -> normalize ts = ts.
Proof.
  induction ts as [|t ts IH]; [reflexivity|].
  destruct t as [n attr|n|s|s|target inst|s]; simpl; intros H;
    try (now rewrite IH).
  apply andb_prop in H. destruct H as [H H3]. apply andb_prop in H. destruct H as [H1 H2].
  rewrite IH by exact H3.
  destruct ts as [|[n attr|n|s'|s'|target inst|s'] r]; try discriminate;
    destruct (String.eqb s ""); try discriminate; reflexivity.
Qed.

Lemma normalize_idempotent (ts : list Token) : normalize (normalize ts) = normalize ts.
Proof. apply normal_fixed, normalize_normal. Qed.

Definition startsWithText (cs : list Child) : bool :=
  match cs with
  | CharData _ :: _ => true
  | _ => false
  end.

(** The document of the children of an element is the token sequence of the
    children with their text runs joined. *)
Lemma normalize_children (endname : Name) (rest : list Token) (cs : list Child) :
  Forall (child_holds (fun c => forall more,
            normalize (tokensOf c ++ more) = tokensOf (mergeTree c) ++ normalize more)) cs ->
  normalize (flat_map childTokens cs ++ EndElement endname :: rest)
  = flat_map childTokens (mergeWith mergeTree cs) ++ EndElement endname :: normalize rest.
Proof.
  induction 1 as [|c cs Hc _ IH]; [reflexivity|].
  destruct c as [x| |]; cbn [flat_map childTokens mergeWith]; fold (mergeWith mergeTree).
  - simpl in Hc. now rewrite <- !app_assoc, Hc, IH.
  - cbn [app normalize]. rewrite IH.
    destruct (mergeWith mergeTree cs) as [|[y|s'|s'] r]; cbn [flat_map childTokens app].
    + now destruct (String.eqb s "").
    + destruct y as [n' a' sub]. rewrite tokensOf_eq. cbn [app].
      destruct (String.eqb s ""); cbn [flat_map childTokens app];
        rewrite ?tokensOf_eq; reflexivity.
    + reflexivity.
    + now destruct (String.eqb s "").
  - cbn [app normalize]. now rewrite IH.
Qed.

Lemma normalize_tokensOf (t : Element) :
  forall more,
    normalize (tokensOf t ++ more) = tokensOf (mergeTree t) ++ normalize more.
Proof.
  induction t as [n attrs cs IH] using Element_tree_ind. intros more.
  cbn [mergeTree]. rewrite !tokensOf_eq. cbn [app normalize].
  rewrite <- !app_assoc. cbn [app]. now rewrite normalize_children.
Qed.

Lemma encode_mergeTree (t : Element) : encode t = tokensOf (mergeTree t).
Proof.
  rewrite encode_tokensOf. rewrite <- (app_nil_r (tokensOf t)).
  rewrite normalize_tokensOf. cbn [normalize]. now rewrite app_nil_r.
Qed.

(** Decoding the document of an element gives the element with its text runs
    joined and its namespaces emptied. *)
Lemma decode_encode (t : Element) :
  decode (encode t) = Done (stripNamespace (mergeTree t), None).
Proof. unfold decode. rewrite encode_mergeTree. apply Decode_tokensOf. Qed.

Lemma encode_idempotent (t : Element) : encode (mergeTree t) = encode t.
Proof.
  rewrite (encode_tokensOf (mergeTree t)), <- encode_mergeTree, encode_tokensOf.
  apply normalize_idempotent.
Qed.

Lemma stripNamespace_id (t : Element) : noNamespace t = true -> stripNamespace t = t.
Proof.
  induction t as [n attrs cs IH] using Element_tree_ind. simpl.
  intros H. apply andb_prop in H. destruct H as [Hn Hcs].
  apply String.eqb_eq in Hn. destruct n as [sp loc]. simpl in *. subst sp. f_equal.
  induction IH as [|c rest Hc _ IHrest]; [reflexivity|].
  simpl in Hcs. apply andb_prop in Hcs. destruct Hcs as [H1 H2].
  simpl. rewrite IHrest by exact H2. f_equal.
  destruct c; [|reflexivity|reflexivity]. simpl in Hc. now rewrite Hc.
Qed.

(** *** Trees built through the public operations have no namespaces *)

Lemma noNamespace_set_nth (g : Element -> Element) (cs : list Child) :
  (forall x, noNamespace x = true -> noNamespace (g x) = true) ->
  forall i,
    forallb (fun c => match c with ChildElement x => noNamespace x | _ => true end) cs = true ->
    forallb (fun c => match c with ChildElement x => noNamespace x | _ => true end)
            (set_nth i (on_element g) cs) = true.
Proof.
  intros Hg. induction cs as [|c cs IH]; intros i H; destruct i; simpl in *; auto.
  - apply andb_prop in H. destruct H as [H1 H2]. rewrite H2, andb_true_r.
    destruct c; simpl; auto.
  - apply andb_prop in H. destruct H as [H1 H2]. now rewrite H1, IH.
Qed.

Lemma noNamespace_update_at (f : Element -> Element) :
  (forall x, noNamespace x = true -> noNamespace (f x) = true) ->
  forall path e, noNamespace e = true -> noNamespace (update_at path f e) = true.
Proof.
  intros Hf. induction path as [|i path IH]; intros e H; simpl; [now apply Hf|].
  destruct e as [n attrs cs]. simpl in *.
  apply andb_prop in H. destruct H as [H1 H2]. rewrite H1. simpl.
  now apply noNamespace_set_nth.
Qed.

Lemma noNamespace_mutate (m : Mutation) (e : Element) :
  noNamespace e = true -> noNamespace (mutate m e) = true.
Proof.
  destruct e as [n attrs cs], m; simpl; intros H;
    apply andb_prop in H; destruct H as [H1 H2]; rewrite H1; simpl; auto;
    rewrite forallb_app, H2; reflexivity.
Qed.

Lemma built_noNamespace (t : Element) : built t -> noNamespace t = true.
Proof.
  induction 1 as [n|e p m _ IH]; [reflexivity|].
  apply noNamespace_update_at; [|exact IH]. intros x. apply noNamespace_mutate.
Qed.

Lemma mergeWith_noNamespace (cs : list Child) :
  Forall (child_holds (fun c => noNamespace c = true -> noNamespace (mergeTree c) = true)) cs ->
  forallb (fun c => match c with ChildElement x => noNamespace x | _ => true end) cs = true ->
  forallb (fun c => match c with ChildElement x => noNamespace x | _ => true end)
          (mergeWith mergeTree cs) = true.
Proof.
  induction 1 as [|c cs Hc _ IH]; [reflexivity|].
  cbn [forallb]. intros H. apply andb_prop in H. destruct H as [H1 H2].
  specialize (IH H2).
  destruct c as [x| |]; cbn [mergeWith]; fold (mergeWith mergeTree).
  - simpl in Hc. cbn [forallb]. now rewrite Hc, IH.
  - destruct (mergeWith mergeTree cs) as [|[y|s'|s'] r]; try exact IH;
      destruct (String.eqb s ""); exact IH.
  - exact IH.
Qed.

Lemma mergeTree_noNamespace (t : Element) :
  noNamespace t = true -> noNamespace (mergeTree t) = true.
Proof.
  induction t as [n attrs cs IH] using Element_tree_ind. cbn [mergeTree noNamespace].
  intros H. apply andb_prop in H. destruct H as [H1 H2]. rewrite H1.
  now apply mergeWith_noNamespace.
Qed.

(** C2: a tree made by [AddChild], [AddAttribute] and [AddCharData] from a new
    element, and more generally any tree of elements, texts and comments whose
    element names have no namespace, decodes from its own document without
    error, and the decoded tree, which has the text runs of the original
    joined, encodes to the same document. *)
Theorem round_trip_fidelity :
  forall t : Element,
    built t \/ noNamespace t = true ->
    exists t',
      decode (encode t) = Done (t', None)
      /\ encode t' = encode t.
Proof.
  intros t H.
  assert (Hn : noNamespace t = true) by (destruct H; [now apply built_noNamespace|assumption]).
  exists (mergeTree t). split; [|apply encode_idempotent].
  rewrite decode_encode. rewrite stripNamespace_id; [reflexivity|].
  now apply mergeTree_noNamespace.
Qed.

Lemma round_trip_fidelity_witness :
  exists t', decode (encode sampleTree) = Done (t', None) /\ encode t' = encode sampleTree.
Proof.
  apply (round_trip_fidelity sampleTree). left.
  unfold sampleTree. repeat apply built_call. apply built_new.
Defined.

(** ** Failures *)

(** A failure met while the element is open ends the loop with that failure,
    unless an end tag closes the element first. *)
Lemma unmarshalLoop_failure (err : error) (post : Decoder) (fuel : nat) :
  err <> EOF ->
  forall depth pre out,
    List.length pre < fuel ->
    staysOpen depth pre = true ->
    (exists out',
        unmarshalLoop fuel out (items pre ++ Fail err :: post)
        = Done (out', post, Some err))
    \/ (exists out' rest,
           0 < depth
           /\ unmarshalLoop fuel out (items pre ++ Fail err :: post)
              = Done (out', items rest ++ Fail err :: post, None)
           /\ staysOpen (depth - 1) rest = true
           /\ List.length rest < List.length pre).
Proof.
  intros Herr. apply String.eqb_neq in Herr.
  induction fuel as [|fuel IH]; intros depth pre out Hlen Hopen; [lia|].
  destruct pre as [|t pre].
  { left. exists out. cbn [items map app unmarshalLoop DecoderToken].
    now rewrite Herr. }
  simpl in Hlen.
  destruct t as [n attr|n|s|s|target inst|s];
    cbn [items map app unmarshalLoop DecoderToken];
    fold (items pre); simpl in Hopen.
  - destruct (IH (S depth) pre (mkElement (mkName "" (Local n)) attr []))
      as [[c Hc]|[c [rest [_ [Hc [Hrest Hshort]]]]]]; [lia|exact Hopen| |].
    + rewrite Hc. cbn [bind]. left. eexists. reflexivity.
    + rewrite Hc. cbn [bind]. simpl in Hrest. rewrite Nat.sub_0_r in Hrest.
      destruct (IH depth rest (AppendChild out c))
        as [[out' H]|[out' [rest' [Hd [H [Hrest' Hshort']]]]]]; [lia|exact Hrest| |].
      * left. eexists. exact H.
      * right. exists out', rest'. repeat split; try assumption. simpl. lia.
  - destruct depth as [|depth]; [discriminate|].
    right. exists out, pre. change (String.eqb EOF EOF) with true. cbv iota.
    simpl. rewrite Nat.sub_0_r. repeat split; auto; lia.
  - destruct (IH depth pre (AddCharData out s))
      as [[out' H]|[out' [rest' [Hd [H [Hrest' Hshort']]]]]]; [lia|exact Hopen| |].
    + left. eexists. exact H.
    + right. exists out', rest'. repeat split; try assumption. simpl. lia.
  - destruct (IH depth pre (mkElement (name out) (attributes out) (children out ++ [Comment s])))
      as [[out' H]|[out' [rest' [Hd [H [Hrest' Hshort']]]]]]; [lia|exact Hopen| |].
    + left. eexists. exact H.
    + right. exists out', rest'. repeat split; try assumption. simpl. lia.
  - destruct (IH depth pre out)
      as [[out' H]|[out' [rest' [Hd [H [Hrest' Hshort']]]]]]; [lia|exact Hopen| |].
    + left. eexists. exact H.
    + right. exists out', rest'. repeat split; try assumption. simpl. lia.
  - destruct (IH depth pre out)
      as [[out' H]|[out' [rest' [Hd [H [Hrest' Hshort']]]]]]; [lia|exact Hopen| |].
    + left. eexists. exact H.
    + right. exists out', rest'. repeat split; try assumption. simpl. lia.
Qed.

Lemma UnmarshalXML_failure (out : Element) (pre : list Token) (err : error)
    (post : Decoder) (n : Name) (attr : list Attr) :
  err <> EOF ->
  staysOpen 0 pre = true ->
  exists out',
    UnmarshalXML out (items pre ++ Fail err :: post) n attr
    = Done (out', post, Some err).
Proof.
  intros Herr H. unfold UnmarshalXML.
  edestruct (unmarshalLoop_failure err post) as [Hl|[? [? [Hd _]]]];
    [exact Herr| |exact H|exact Hl|lia].
  rewrite length_app. unfold items. rewrite length_map. simpl. lia.
Qed.

Lemma EncodeToken_broken (t : Token) (e : Encoder) :
  broken e = true -> EncodeToken t e = (e, Some SinkWriteError).
Proof. intros H. unfold EncodeToken. now rewrite H. Qed.

Lemma put_broken (ts : list Token) (e : Encoder) : broken e = true -> put ts e = e.
Proof.
  intros H. unfold put. induction ts as [|t ts IH]; [reflexivity|].
  simpl. now rewrite EncodeToken_broken.
Qed.

Lemma put_cons (t : Token) (ts : list Token) (e : Encoder) :
  put (t :: ts) e = put ts (fst (EncodeToken t e)).
Proof. reflexivity. Qed.

Lemma put_app (ts1 ts2 : list Token) (e : Encoder) :
  put (ts1 ++ ts2) e = put ts2 (put ts1 e).
Proof. unfold put. apply fold_left_app. Qed.

(** [MarshalXML] offers the tokens of the element to the sink in order; when
    it returns an error, the sink has refused a write. *)
Lemma MarshalXML_put (t : Element) :
  forall e,
    fst (MarshalXML t e) = put (tokensOf t) e
    /\ (forall err, snd (MarshalXML t e) = Some err ->
          err = SinkWriteError /\ broken (put (tokensOf t) e) = true).
Proof.
  induction t as [n attrs cs IH] using Element_tree_ind. intros e.
  rewrite tokensOf_eq. cbn [MarshalXML].
  change (StartElement n attrs :: flat_map childTokens cs ++ [EndElement n])
    with ([StartElement n attrs] ++ flat_map childTokens cs ++ [EndElement n]).
  rewrite put_app. change (put [StartElement n attrs] e)
    with (fst (EncodeToken (StartElement n attrs) e)).
  generalize (fst (EncodeToken (StartElement n attrs) e)). clear e.
  induction IH as [|c rest Hc _ IHrest]; intros e.
  - simpl. split; [reflexivity|discriminate].
  - destruct c as [x| |]; cbn [flat_map childTokens].
    + simpl in Hc. destruct (Hc e) as [Hw Herr].
      rewrite <- app_assoc, put_app. rewrite <- Hw.
      destruct (MarshalXML x e) as [e' [err|]]; cbn [finishEncode fst snd] in *.
      * destruct (Herr err eq_refl) as [-> Hb]. rewrite <- Hw in Hb.
        rewrite put_broken by exact Hb. split; [reflexivity|].
        intros err' [= <-]. now split.
      * destruct (broken e') eqn:Hb.
        -- rewrite put_broken by exact Hb. split; [reflexivity|].
           intros err' [= <-]. now split.
        -- apply IHrest.
    + cbn [app]. rewrite put_cons. apply IHrest.
    + cbn [app]. rewrite put_cons. apply IHrest.
Qed.

Lemma Encode_put (t : Element) (e : Encoder) :
  Encode t e
  = (put (tokensOf t) e,
     if broken (put (tokensOf t) e) then Some SinkWriteError else None).
Proof.
  unfold Encode. destruct (MarshalXML_put t e) as [Hw Herr].
  destruct (MarshalXML t e) as [e' [err|]]; cbn [finishEncode fst snd] in *; subst e'.
  - destruct (Herr err eq_refl) as [-> Hb]. now rewrite Hb.
  - reflexivity.
Qed.

Lemma put_room (ts : list Token) :
  forall k w,
    put ts (mkEncoder w (Some k) false)
    = mkEncoder (w ++ firstn k ts) (Some (k - List.length ts))
                (k <? List.length ts)%nat.
Proof.
  induction ts as [|t ts IH]; intros k w.
  - simpl. rewrite firstn_nil, app_nil_r, Nat.sub_0_r. reflexivity.
  - change (t :: ts) with ([t] ++ ts). rewrite put_app.
    destruct k as [|k].
    + change (put [t] (mkEncoder w (Some 0) false)) with (mkEncoder w (Some 0) true).
      rewrite put_broken by reflexivity. simpl. now rewrite app_nil_r.
    + change (put [t] (mkEncoder w (Some (S k)) false))
        with (mkEncoder (w ++ [t]) (Some k) false).
      rewrite IH. simpl. now rewrite <- app_assoc.
Qed.

(** C8, as the code has it: a failure of the decoder while an element is open
    ends [UnmarshalXML] at once, at every nesting level, and is what it and
    [Decode] return, nothing being read past the failure; [Encode] returns the
    write error exactly when the sink has refused a token, and the document
    then ends with the last token the sink took; [ExportProject] and
    [exportFilter] stop with a printed message when a path cannot be resolved
    or a file cannot be opened. *)
Theorem failures_abort_and_are_returned :
  (forall out pre err post n attr,
      err <> EOF ->
      staysOpen 0 pre = true ->
      exists out',
        UnmarshalXML out (items pre ++ Fail err :: post) n attr
        = Done (out', post, Some err))
  /\ (forall v pre err post n attr,
         err <> EOF ->
         staysOpen 0 pre = true ->
         exists out',
           Decode (Tok (StartElement n attr) :: items pre ++ Fail err :: post) v
           = Done (out', Some err))
  /\ (forall v err post, Decode (Fail err :: post) v = Done (v, Some err))
  /\ (forall t e,
         Encode t e
         = (put (tokensOf t) e,
            if broken (put (tokensOf t) e) then Some SinkWriteError else None))
  /\ (forall t k,
         Encode t (NewEncoder (Some k))
         = (mkEncoder (firstn k (tokensOf t)) (Some (k - List.length (tokensOf t)))
                      (k <? List.length (tokensOf t))%nat,
            if (k <? List.length (tokensOf t))%nat then Some SinkWriteError else None))
  /\ (forall t e err,
         snd (MarshalXML t e) = Some err -> broken (fst (MarshalXML t e)) = true)
  /\ (forall env files outdir projname,
         Abs (getwd env) (Dir (args0 env)) = None ->
         ExportProject env files outdir projname
         = Done [Println "An error occurred while getting executable path."])
  /\ (forall env files outdir projname exepath,
         Abs (getwd env) (Dir (args0 env)) = Some exepath ->
         open_read env (Join [exepath; "template.vcxproj"]) = None ->
         ExportProject env files outdir projname
         = Done [Println "File opening error occurred while reading project template."])
  /\ (forall env files outpath,
         Abs (getwd env) (Dir "./") = None ->
         exportFilter env files outpath
         = Done [Println "An error occurred while getting root path."])
  /\ (forall env files outpath root,
         Abs (getwd env) (Dir "./") = Some root ->
         open_write env outpath = None ->
         exportFilter env files outpath
         = Done [Println "File opening error occurred while writing filters."]).
Proof.
  split; [|split; [|split; [|split; [|split; [|split; [|split; [|split; [|split]]]]]]]].
  - intros. now apply UnmarshalXML_failure.
  - intros v pre err post n attr He H. cbn [Decode].
    destruct (UnmarshalXML_failure v pre err post n attr He H) as [out' ->].
    eexists. reflexivity.
  - reflexivity.
  - apply Encode_put.
  - intros t k. rewrite Encode_put. unfold NewEncoder. rewrite put_room. reflexivity.
  - intros t e err H. destruct (MarshalXML_put t e) as [-> Herr].
    now apply (Herr err).
  - intros env files outdir projname H. unfold ExportProject. now rewrite H.
  - intros env files outdir projname exepath H1 H2. unfold ExportProject.
    now rewrite H1, H2.
  - intros env files outpath H. unfold exportFilter.
    change (UUID_Parse UUIDSPACE) with (Some UUIDSPACE_bytes). cbv iota. now rewrite H.
  - intros env files outpath root H1 H2. unfold exportFilter.
    change (UUID_Parse UUIDSPACE) with (Some UUIDSPACE_bytes). cbv iota.
    now rewrite H1, filterGroups_eq, H2.
Qed.

Lemma failures_abort_and_are_returned_witness :
  exists out',
    UnmarshalXML (mkElement (mkName "" "") [] [])
      (items [StartElement (mkName "" "ItemGroup") [];
                 EndElement (mkName "" "ItemGroup");
                 StartElement (mkName "" "ItemGroup") []; TokCharData "x"]
         ++ Fail "XML syntax error" :: [Tok (EndElement (mkName "" "ItemGroup"))])
      (mkName "" "Project") []
    = Done (out', [Tok (EndElement (mkName "" "ItemGroup"))], Some "XML syntax error").
Proof.
  apply (proj1 failures_abort_and_are_returned); [discriminate|reflexivity].
Defined.

(** C8, refuted as stated: the template fails to decode inside its second
    grouping and [Decode] returns the failure, yet [ExportProject] goes on with
    the part decoded so far, rewrites it, writes both files and prints
    nothing. *)
Lemma decode_failure_is_discarded :
  Decode brokenTemplate (mkElement (mkName "" "") [] [])
  = Done (mkElement (mkName "" "Project") []
            [ChildElement (mkElement (mkName "" "ItemGroup")
                                     [mkAttr (mkName "" "Label") "Sources"] [])],
          Some "XML syntax error")
  /\ ExportProject brokenTemplateEnv ["a.cpp"; "b.h"] "out" "proj"
     = Done [WriteFile "out/proj.vcxproj"
               [StartElement (mkName "" "Project") [];
                StartElement (mkName "" "ItemGroup") [];
                StartElement (mkName "" "ClCompile") [mkAttr (mkName "" "Include") "a.cpp"];
                EndElement (mkName "" "ClCompile");
                TokCharData newline;
                EndElement (mkName "" "ItemGroup");
                EndElement (mkName "" "Project")];
             WriteFile "out/proj.vcxproj.filters"
               [StartElement
                  (mkName "http://schemas.microsoft.com/developer/msbuild/2003" "Project")
                  [mkAttr (mkName "" "ToolsVersion") "4.0"];
                StartElement (mkName "" "ItemGroup") [];
                EndElement (mkName "" "ItemGroup");
                StartElement (mkName "" "ItemGroup") [];
                EndElement (mkName "" "ItemGroup");
                EndElement
                  (mkName "http://schemas.microsoft.com/developer/msbuild/2003" "Project")]].
Proof. split; vm_compute; reflexivity. Qed.

(** ** Everything returns *)

Lemma unmarshalLoop_total (fuel : nat) :
  forall d out,
    List.length d < fuel ->
    exists out' d' err,
      unmarshalLoop fuel out d = Done (out', d', err)
      /\ List.length d' <= List.length d.
Proof.
  induction fuel as [|fuel IH]; intros d out Hlen; [lia|].
  destruct d as [|[t|err] d]; cbn [unmarshalLoop DecoderToken]; simpl in Hlen.
  - change (String.eqb EOF EOF) with true. cbv iota.
    do 3 eexists. split; [reflexivity|]. simpl. lia.
  - destruct t as [n attr|n|s|s|target inst|s].
    + destruct (IH d (mkElement (mkName "" (Local n)) attr [])) as (c & d' & err & -> & Hd');
        [lia|]. cbn [bind]. destruct err as [err|].
      * do 3 eexists. split; [reflexivity|simpl; lia].
      * destruct (IH d' (AppendChild out c)) as (out' & d'' & err & -> & Hd''); [lia|].
        do 3 eexists. split; [reflexivity|simpl; lia].
    + change (String.eqb EOF EOF) with true. cbv iota.
      do 3 eexists. split; [reflexivity|simpl; lia].
    + destruct (IH d (AddCharData out s)) as (out' & d' & err & -> & Hd'); [lia|].
      do 3 eexists. split; [reflexivity|simpl; lia].
    + destruct (IH d (mkElement (name out) (attributes out) (children out ++ [Comment s])))
        as (out' & d' & err & -> & Hd'); [lia|].
      do 3 eexists. split; [reflexivity|simpl; lia].
    + destruct (IH d out) as (out' & d' & err & -> & Hd'); [lia|].
      do 3 eexists. split; [reflexivity|simpl; lia].
    + destruct (IH d out) as (out' & d' & err & -> & Hd'); [lia|].
      do 3 eexists. split; [reflexivity|simpl; lia].
  - destruct (String.eqb err EOF); do 3 eexists; (split; [reflexivity|simpl; lia]).
Qed.

Lemma Decode_total (d : Decoder) (v : Element) :
  exists out err, Decode d v = Done (out, err).
Proof.
  induction d as [|[t|err] d IH]; simpl; [eauto| |eauto].
  destruct t; try exact IH.
  unfold UnmarshalXML.
  destruct (unmarshalLoop_total (S (List.length d)) d
              (mkElement (mkName "" (Local n)) attr (children v)))
    as (out' & d' & err & -> & _); [lia|].
  simpl. eauto.
Qed.

(** [ExportProject] neither panics nor loops for ever, whatever the files and
    the surroundings. *)
Lemma ExportProject_returns (env : Env) (files : list string) (outdir projname : string) :
  exists events, ExportProject env files outdir projname = Done events.
Proof.
  unfold ExportProject.
  destruct (Abs (getwd env) (Dir (args0 env))) as [exepath|]; [|eauto].
  destruct (open_read env _) as [fp_in|]; [|eauto].
  destruct (Decode_total fp_in (mkElement (mkName "" "") [] [])) as (out & err & ->).
  cbn [bind]. destruct (scanTemplate _ out tt) as [element u].
  destruct (open_write env _) as [room|]; [|eauto].
  destruct (Encode element (NewEncoder room)) as [enc r].
  unfold exportFilter. change (UUID_Parse UUIDSPACE) with (Some UUIDSPACE_bytes). cbv iota.
  destruct (Abs (getwd env) (Dir "./")) as [root|]; [|simpl; eauto].
  rewrite filterGroups_eq. cbn [bind].
  destruct (open_write env _) as [room'|]; [|simpl; eauto].
  destruct (Encode _ (NewEncoder room')). simpl. eauto.
Qed.

(** * Further properties of the code *)

(** ** The label dispatch of [ExportProject] *)

Lemma labelEntries_not_selected (files : list string) (attr : Attr) :
  selectsPolicy attr = false -> labelEntries files attr = [].
Proof.
  unfold selectsPolicy, labelEntries.
  destruct (String.eqb (Local (AttrName attr)) "Label"); [|reflexivity].
  destruct (String.eqb (Value attr) "Sources"); [discriminate|].
  destruct (String.eqb (Value attr) "Headers"); [discriminate|reflexivity].
Qed.

Lemma flat_map_labelEntries_none (files : list string) (attrs : list Attr) :
  existsb selectsPolicy attrs = false -> flat_map (labelEntries files) attrs = [].
Proof.
  induction attrs as [|a attrs IH]; [reflexivity|]. simpl. intros H.
  apply orb_false_elim in H. destruct H as [Ha Hr].
  now rewrite labelEntries_not_selected, IH.
Qed.

Lemma fn_fold (files : list string) (attrs : list Attr) :
  forall acc,
    fold_left
      (fun element attr =>
         if String.eqb (Local (AttrName attr)) "Label" then
           if String.eqb (Value attr) "Sources" then overrideSources element files
           else if String.eqb (Value attr) "Headers" then overrideHeaders element files
           else element
         else element)
      attrs acc
    = mkElement (name acc)
                (if existsb selectsPolicy attrs then [] else attributes acc)
                (children acc ++ flat_map (labelEntries files) attrs).
Proof.
  induction attrs as [|a attrs IH]; intros [n atts cs].
  - simpl. now rewrite app_nil_r.
  - pose proof (eq_refl (selectsPolicy a)) as Hs. unfold selectsPolicy in Hs at 2.
    pose proof (eq_refl (labelEntries files a)) as Hl. unfold labelEntries in Hl at 2.
    cbn [fold_left flat_map existsb]. rewrite IH.
    destruct (String.eqb (Local (AttrName a)) "Label");
      [destruct (String.eqb (Value a) "Sources");
       [|destruct (String.eqb (Value a) "Headers")]|];
      cbn [andb orb] in Hs; rewrite Hs, Hl; cbn [orb].
    + rewrite overrideSources_eq. cbn [name attributes children].
      rewrite <- app_assoc. now destruct (existsb selectsPolicy attrs).
    + rewrite overrideHeaders_eq. cbn [name attributes children].
      rewrite <- app_assoc. now destruct (existsb selectsPolicy attrs).
    + reflexivity.
    + reflexivity.
Qed.

(** X1: the closure of [ExportProject] appends, for every attribute named
    [Label] with value [Sources] or [Headers], in attribute order, the entries
    of that policy, and empties the attribute list if there was such an
    attribute; an element without one is returned as it is. *)
Theorem label_dispatch :
  forall (files : list string) (element : Element),
    fn files element
    = mkElement (name element)
                (if existsb selectsPolicy (attributes element) then []
                 else attributes element)
                (children element ++ flat_map (labelEntries files) (attributes element))
    /\ (existsb selectsPolicy (attributes element) = false -> fn files element = element).
Proof.
  intros files element. unfold fn. rewrite fn_fold. split; [reflexivity|].
  intros H. rewrite H, flat_map_labelEntries_none by exact H.
  destruct element. simpl. now rewrite app_nil_r.
Qed.

Lemma fn_eq (files : list string) (element : Element) :
  fn files element
  = mkElement (name element)
              (if existsb selectsPolicy (attributes element) then []
               else attributes element)
              (children element ++ flat_map (labelEntries files) (attributes element)).
Proof. unfold fn. apply fn_fold. Qed.

Lemma fn_idempotent (files : list string) (element : Element) :
  fn files (fn files element) = fn files element.
Proof.
  rewrite (fn_eq files (fn files element)). rewrite (fn_eq files element).
  cbn [name attributes children].
  destruct (existsb selectsPolicy (attributes element)) eqn:E.
  - simpl. now rewrite app_nil_r.
  - rewrite E, flat_map_labelEntries_none by exact E. now rewrite !app_nil_r.
Qed.

Lemma fn_name (files : list string) (element : Element) :
  name (fn files element) = name element.
Proof. now rewrite fn_eq. Qed.

Lemma rewriteMatches_idempotent (f : Element -> Element) :
  (forall e, f (f e) = f e) -> (forall e, name (f e) = name e) ->
  forall t, rewriteMatches f (rewriteMatches f t) = rewriteMatches f t.
Proof.
  intros Hf Hn t. induction t as [n attrs cs IH] using Element_tree_ind.
  cbn [rewriteMatches]. destruct (String.eqb (Local n) "ItemGroup") eqn:E.
  - specialize (Hn (mkElement n attrs cs)). cbn [name] in Hn.
    destruct (f (mkElement n attrs cs)) as [n' attrs' cs'] eqn:Ef. cbn [name] in Hn.
    subst n'. cbn [rewriteMatches]. rewrite E, <- Ef. apply Hf.
  - cbn [rewriteMatches]. rewrite E. f_equal. rewrite map_map.
    induction IH as [|c rest Hc _ IHrest]; [reflexivity|].
    cbn [map]. rewrite IHrest. f_equal. destruct c; [|reflexivity|reflexivity].
    simpl in Hc. now rewrite Hc.
Qed.

(** X2: rewriting is done once and for all: a rewrite empties the attribute
    list and so removes the label that selected it, hence running the closure
    again on its result, or scanning the scanned tree again with the same
    files, changes nothing. *)
Theorem rewrite_is_idempotent :
  forall (files : list string) (t : Element),
    let scan := fun t => fst (scanTemplate (fun e (_ : unit) => (fn files e, tt)) t tt) in
    fn files (fn files t) = fn files t
    /\ scan (scan t) = scan t.
Proof.
  intros files t scan. split; [apply fn_idempotent|].
  subst scan. cbv beta. rewrite !scanTemplate_pure. cbn [fst].
  apply rewriteMatches_idempotent; [apply fn_idempotent|apply fn_name].
Qed.

(** ** The scanner on trees without a grouping element *)

Lemma among_nil (cs : list Child) :
  (fix among (cs : list Child) : list Element :=
     match cs with
     | [] => []
     | ChildElement c :: rest => matches c ++ among rest
     | _ :: rest => among rest
     end) cs = [] ->
  Forall (fun c => match c with ChildElement x => matches x = [] | _ => True end) cs.
Proof.
  induction cs as [|c cs IH]; intros H; [constructor|].
  destruct c as [x| |].
  - apply app_eq_nil in H. destruct H as [H1 H2]. constructor; auto.
  - constructor; auto.
  - constructor; auto.
Qed.

(** X3: on a tree that holds no element named [ItemGroup] outside such an
    element, that is none at all, [scanTemplate] never calls the callback and
    returns the tree and the callback's state untouched. *)
Theorem scan_without_match_changes_nothing :
  forall (St : Type) (callback : Element -> St -> Element * St) (t : Element) (s : St),
    matches t = [] ->
    scanTemplate callback t s = (t, s).
Proof.
  intros St callback t. induction t as [n attrs cs IH] using Element_tree_ind.
  intros s H. cbn [matches] in H. cbn [scanTemplate].
  destruct (String.eqb (Local n) "ItemGroup"); [discriminate|].
  apply among_nil in H.
  match goal with
  | |- (let '(cs', s') := ?range cs s in _) = _ =>
      assert (Hr : forall s, range cs s = (cs, s))
  end.
  { clear s. induction IH as [|c rest Hc _ IHrest]; intros s; [reflexivity|].
    inversion H as [|? ? Hm Hrest]; subst.
    destruct c as [x| |]; simpl in *.
    - rewrite (Hc s Hm). now rewrite (IHrest Hrest).
    - now rewrite (IHrest Hrest).
    - now rewrite (IHrest Hrest). }
  now rewrite Hr.
Qed.

Lemma scan_without_match_changes_nothing_witness :
  scanTemplate (fun e (n : nat) => (newElement "changed", S n))
    (mkElement (mkName "" "Project") []
       [CharData "a"; ChildElement (newElement "PropertyGroup"); Comment "c"]) 0
  = (mkElement (mkName "" "Project") []
       [CharData "a"; ChildElement (newElement "PropertyGroup"); Comment "c"], 0).
Proof.
  apply (scan_without_match_changes_nothing nat). reflexivity.
Defined.

(** ** Rewrites in sequence *)

Lemma generatedEntries_app (accept : string -> bool) (tag : string) (l1 l2 : list string) :
  generatedEntries accept tag (l1 ++ l2)
  = generatedEntries accept tag l1 ++ generatedEntries accept tag l2.
Proof. unfold generatedEntries. apply flat_map_app. Qed.

(** X4: a policy applied to the files in two batches gives what it gives on
    the whole list, and the Headers policy applied after the Sources policy
    puts its entries behind the source entries: rewrites only ever append. *)
Theorem rewrites_compose :
  forall (element : Element) (l1 l2 : list string),
    overrideSources (overrideSources element l1) l2 = overrideSources element (l1 ++ l2)
    /\ overrideHeaders (overrideHeaders element l1) l2 = overrideHeaders element (l1 ++ l2)
    /\ overrideHeaders (overrideSources element l1) l2
       = mkElement (name element) []
           (children element ++ generatedEntries isSourceExt "ClCompile" l1
              ++ generatedEntries isHeaderExt "ClInclude" l2).
Proof.
  intros element l1 l2.
  rewrite !overrideSources_eq, !overrideHeaders_eq. cbn [name children].
  rewrite !generatedEntries_app, <- !app_assoc. repeat split.
Qed.

(** ** More on decoding *)

(** More fuel does not change what the loop returns. *)
Lemma unmarshalLoop_mono (fuel : nat) :
  forall out d r fuel',
    unmarshalLoop fuel out d = Done r -> fuel <= fuel' ->
    unmarshalLoop fuel' out d = Done r.
Proof.
  induction fuel as [|fuel IH]; intros out d r fuel' H Hle; [discriminate|].
  destruct fuel' as [|fuel']; [lia|]. apply le_S_n in Hle.
  cbn [unmarshalLoop] in *.
  destruct (DecoderToken d) as [[token|err] d0]; [|exact H].
  destruct token as [n attr|n|s|s|target inst|s]; try (eapply IH; eassumption).
  destruct (unmarshalLoop fuel (mkElement (mkName "" (Local n)) attr []) d0)
    as [[[c d1] e1]| |] eqn:E; try discriminate.
  rewrite (IH _ _ _ fuel' E Hle). cbn [bind] in *.
  destruct e1; [exact H|]. eapply IH; eassumption.
Qed.

(** What the loop returns with some fuel is what [UnmarshalXML] returns. *)
Lemma UnmarshalXML_of_loop (fuel : nat) (out : Element) (d : Decoder) (n : Name)
    (attr : list Attr) (r : Element * Decoder * option error) :
  unmarshalLoop fuel (mkElement (mkName "" (Local n)) attr (children out)) d = Done r ->
  UnmarshalXML out d n attr = Done r.
Proof.
  intros H. unfold UnmarshalXML.
  destruct (unmarshalLoop_total (S (List.length d)) d
              (mkElement (mkName "" (Local n)) attr (children out)))
    as (o & d' & e & H' & _); [lia|].
  rewrite H'.
  pose proof (unmarshalLoop_mono _ _ _ _ (Nat.max fuel (S (List.length d))) H
                (Nat.le_max_l _ _)) as H1.
  pose proof (unmarshalLoop_mono _ _ _ _ (Nat.max fuel (S (List.length d))) H'
                (Nat.le_max_r _ _)) as H2.
  congruence.
Qed.

(** Reading the tokens of complete children and then going on is going on
    with those children appended. *)
Lemma unmarshalLoop_after_children (cs : list Child) :
  forall tail out fuel r,
    unmarshalLoop fuel
      (mkElement (name out) (attributes out) (children out ++ map stripChild cs)) tail
    = Done r ->
    exists fuel',
      unmarshalLoop fuel' out (items (flat_map childTokens cs) ++ tail) = Done r.
Proof.
  induction cs as [|c cs IH]; intros tail out fuel r H.
  - exists fuel. destruct out. simpl in *. now rewrite app_nil_r in H.
  - assert (Hnext : forall out1,
               children out1 = children out ++ [stripChild c] ->
               name out1 = name out -> attributes out1 = attributes out ->
               exists fuel1,
                 unmarshalLoop fuel1 out1 (items (flat_map childTokens cs) ++ tail) = Done r).
    { intros out1 Hc Hn Ha. apply (IH tail out1 fuel r).
      rewrite Hc, Hn, Ha, <- app_assoc. exact H. }
    destruct c as [[n attrs sub]| |]; cbn [flat_map childTokens].
    + destruct (Hnext (AppendChild out (stripNamespace (mkElement n attrs sub))))
        as [fuel1 H1]; try reflexivity.
      exists (S (Nat.max fuel1 (S (List.length (flat_map childTokens sub))))).
      rewrite tokensOf_eq. unfold items. rewrite map_app. cbn [map app].
      rewrite map_app. cbn [map]. rewrite <- !app_assoc.
      cbn [app unmarshalLoop DecoderToken].
      pose proof (unmarshalLoop_element (mkElement n attrs sub)) as He.
      cbn [children] in He. unfold items in He. rewrite He by lia. cbn [bind].
      cbn [name attributes children app].
      eapply unmarshalLoop_mono; [exact H1|lia].
    + destruct (Hnext (AddCharData out s)) as [fuel1 H1]; try reflexivity.
      exists (S fuel1). unfold items. cbn [map app unmarshalLoop DecoderToken]. exact H1.
    + destruct (Hnext (mkElement (name out) (attributes out) (children out ++ [Comment s])))
        as [fuel1 H1]; try reflexivity.
      exists (S fuel1). unfold items. cbn [map app unmarshalLoop DecoderToken]. exact H1.
Qed.

(** The loop only ever appends elements without namespaces. *)
Lemma unmarshalLoop_noNamespace (fuel : nat) :
  forall out d out' d' err,
    noNamespace out = true ->
    unmarshalLoop fuel out d = Done (out', d', err) ->
    noNamespace out' = true.
Proof.
  induction fuel as [|fuel IH]; intros out d out' d' err Hout H; [discriminate|].
  cbn [unmarshalLoop] in H.
  assert (Happ : forall c, (match c with ChildElement x => noNamespace x | _ => true end) = true ->
            noNamespace (mkElement (name out) (attributes out) (children out ++ [c])) = true).
  { intros c Hc. destruct out as [n a cs]. simpl in *.
    apply andb_prop in Hout. destruct Hout as [H1 H2].
    rewrite H1, forallb_app, H2. simpl. now rewrite Hc. }
  destruct (DecoderToken d) as [[token|e] d0].
  - destruct token as [n attr|n|s|s|target inst|s]; try (eapply IH; eassumption).
    + destruct (unmarshalLoop fuel (mkElement (mkName "" (Local n)) attr []) d0)
        as [[[c d1] e1]| |] eqn:E; try discriminate.
      cbn [bind] in H. apply IH in E; [|reflexivity].
      destruct e1; [now injection H as <- _ _|].
      eapply IH; [|exact H]. apply (Happ (ChildElement c)). exact E.
    + eapply IH; [|exact H]. now apply (Happ (CharData s)).
    + eapply IH; [|exact H]. now apply (Happ (Comment s)).
  - destruct (String.eqb e EOF); now injection H as <- _ _.
Qed.

(** X5: whatever the input, and whether decoding succeeds or fails, [Decode]
    into a new element returns, and no element of the tree it leaves has a
    namespace in its name: [UnmarshalXML] empties it at every level. *)
Theorem decoded_names_have_no_namespace :
  forall d : Decoder,
    exists out err,
      Decode d (mkElement (mkName "" "") [] []) = Done (out, err)
      /\ noNamespace out = true.
Proof.
  intros d. induction d as [|[t|e] d IH]; cbn [Decode];
    [do 2 eexists; split; reflexivity| |do 2 eexists; split; reflexivity].
  destruct t as [n attr|n|s|s|target inst|s]; try exact IH.
  unfold UnmarshalXML. cbn [children].
  destruct (unmarshalLoop_total (S (List.length d)) d (mkElement (mkName "" (Local n)) attr []))
    as (o & d' & e & H & _); [lia|].
  rewrite H. cbn [bind]. do 2 eexists. split; [reflexivity|].
  eapply unmarshalLoop_noNamespace; [|exact H]. reflexivity.
Qed.

(** X6: [UnmarshalXML] on the tokens of any children followed by an end tag
    takes the local name and the attributes of the start tag, keeps the
    children the element already had, appends the children read, in order and
    with the namespaces of their element names emptied, and leaves the input
    that follows the end tag; the same when the input ends instead. *)
Theorem unmarshal_reads_exactly_its_element :
  forall (out : Element) (cs : list Child) (n endname : Name) (attr : list Attr)
         (rest : Decoder),
    UnmarshalXML out (items (flat_map childTokens cs) ++ Tok (EndElement endname) :: rest)
                 n attr
    = Done (mkElement (mkName "" (Local n)) attr (children out ++ map stripChild cs),
            rest, None)
    /\ UnmarshalXML out (items (flat_map childTokens cs)) n attr
       = Done (mkElement (mkName "" (Local n)) attr (children out ++ map stripChild cs),
               [], None).
Proof.
  intros out cs n endname attr rest. split.
  - destruct (unmarshalLoop_after_children cs (Tok (EndElement endname) :: rest)
                (mkElement (mkName "" (Local n)) attr (children out)) 1
                (mkElement (mkName "" (Local n)) attr (children out ++ map stripChild cs),
                 rest, None)) as [fuel H]; [reflexivity|].
    eapply UnmarshalXML_of_loop. exact H.
  - destruct (unmarshalLoop_after_children cs []
                (mkElement (mkName "" (Local n)) attr (children out)) 1
                (mkElement (mkName "" (Local n)) attr (children out ++ map stripChild cs),
                 [], None)) as [fuel H]; [reflexivity|].
    rewrite app_nil_r in H. eapply UnmarshalXML_of_loop. exact H.
Qed.

(** X8: when the decoder fails after some complete children, either between
    children or inside a child that is still open, [UnmarshalXML] returns the
    failure with the complete children appended; the child that was being read
    is lost. *)
Theorem failure_keeps_complete_children :
  forall (out : Element) (cs : list Child) (opened : list Token) (err : error)
         (post : Decoder) (n : Name) (attr : list Attr),
    err <> EOF ->
    match opened with
    | [] => true
    | StartElement _ _ :: inner => staysOpen 0 inner
    | _ => false
    end = true ->
    UnmarshalXML out (items (flat_map childTokens cs) ++ items opened ++ Fail err :: post)
                 n attr
    = Done (mkElement (mkName "" (Local n)) attr (children out ++ map stripChild cs),
            post, Some err).
Proof.
  intros out cs opened err post n attr Herr Hopen.
  set (out1 := mkElement (mkName "" (Local n)) attr (children out ++ map stripChild cs)).
  assert (H : exists fuel,
             unmarshalLoop fuel out1 (items opened ++ Fail err :: post)
             = Done (out1, post, Some err)).
  { destruct opened as [|[n' a'| | | | |] inner]; try discriminate.
    - exists 1. cbn [items map app unmarshalLoop DecoderToken].
      apply String.eqb_neq in Herr. now rewrite Herr.
    - remember (S (List.length inner)) as f eqn:Hf.
      destruct (unmarshalLoop_failure err post f Herr 0 inner
                  (mkElement (mkName "" (Local n')) a' []))
        as [[c Hc]|[? [? [Hd _]]]]; [lia|exact Hopen| |lia].
      clear Hf. exists (S f).
      cbn [items map app unmarshalLoop DecoderToken]. fold (items inner).
      rewrite Hc. reflexivity. }
  destruct H as [fuel H].
  destruct (unmarshalLoop_after_children cs (items opened ++ Fail err :: post)
              (mkElement (mkName "" (Local n)) attr (children out)) fuel
              (out1, post, Some err) H) as [fuel' H'].
  eapply UnmarshalXML_of_loop. exact H'.
Qed.

Lemma failure_keeps_complete_children_witness :
  UnmarshalXML (mkElement (mkName "" "") [] [])
    (items (flat_map childTokens [CharData "a"; ChildElement (newElement "ItemGroup")])
       ++ items [StartElement (mkName "" "ItemGroup") []; TokCharData "lost"]
       ++ Fail "XML syntax error" :: [])
    (mkName "ns" "Project") []
  = Done (mkElement (mkName "" "Project") []
            [CharData "a"; ChildElement (newElement "ItemGroup")],
          [], Some "XML syntax error").
Proof.
  apply (failure_keeps_complete_children (mkElement (mkName "" "") [] [])
           [CharData "a"; ChildElement (newElement "ItemGroup")]
           [StartElement (mkName "" "ItemGroup") []; TokCharData "lost"]);
    [discriminate|reflexivity].
Defined.

Lemma unmarshalLoop_filter (fuel : nat) :
  forall out d out' d' err,
    unmarshalLoop fuel out d = Done (out', d', err) ->
    exists fuel',
      unmarshalLoop fuel' out (filter recognised d)
      = Done (out', filter recognised d', err).
Proof.
  induction fuel as [|fuel IH]; intros out d out' d' err H; [discriminate|].
  destruct d as [|[t|e] d0].
  - exists 1. cbn in H |- *. injection H as <- <- <-. reflexivity.
  - destruct t as [n attr|n|s|s|target inst|s];
      cbn [unmarshalLoop DecoderToken filter recognised] in H |- *.
    + destruct (unmarshalLoop fuel (mkElement (mkName "" (Local n)) attr []) d0)
        as [[[c d1] e1]| |] eqn:E; try discriminate.
      cbn [bind] in H. apply IH in E. destruct E as [fuel1 E].
      destruct e1 as [e1|].
      * injection H as <- <- <-. exists (S fuel1).
        cbn [unmarshalLoop DecoderToken]. rewrite E. reflexivity.
      * apply IH in H. destruct H as [fuel2 H].
        exists (S (Nat.max fuel1 fuel2)). cbn [unmarshalLoop DecoderToken].
        rewrite (unmarshalLoop_mono _ _ _ _ (Nat.max fuel1 fuel2) E (Nat.le_max_l _ _)).
        cbn [bind].
        apply (unmarshalLoop_mono _ _ _ _ (Nat.max fuel1 fuel2) H (Nat.le_max_r _ _)).
    + exists 1. change (String.eqb EOF EOF) with true in H |- *. cbv iota in H |- *.
      injection H as <- <- <-. cbn [unmarshalLoop DecoderToken].
      change (String.eqb EOF EOF) with true. reflexivity.
    + apply IH in H. destruct H as [fuel1 H]. exists (S fuel1).
      cbn [unmarshalLoop DecoderToken]. exact H.
    + apply IH in H. destruct H as [fuel1 H]. exists (S fuel1).
      cbn [unmarshalLoop DecoderToken]. exact H.
    + apply IH in H. exact H.
    + apply IH in H. exact H.
  - cbn [unmarshalLoop DecoderToken filter recognised] in H |- *. exists 1.
    cbn [unmarshalLoop DecoderToken].
    destruct (String.eqb e EOF); injection H as <- <- <-; reflexivity.
Qed.

Lemma Decode_filter (d : Decoder) (v : Element) :
  Decode (filter recognised d) v = Decode d v.
Proof.
  induction d as [|[t|e] d IH]; [reflexivity| |reflexivity].
  destruct t as [n attr|n|s|s|target inst|s];
    cbn [filter recognised Decode]; try exact IH.
  unfold UnmarshalXML at 2.
  destruct (unmarshalLoop_total (S (List.length d)) d
              (mkElement (mkName "" (Local n)) attr (children v)))
    as (o & d' & e & H & _); [lia|].
  rewrite H. apply unmarshalLoop_filter in H. destruct H as [fuel' H].
  now rewrite (UnmarshalXML_of_loop _ _ _ _ _ _ H).
Qed.

(** X7: processing instructions and directives, which the [switch] of
    [UnmarshalXML] has no case for, leave no trace: on an input without them
    [UnmarshalXML] returns the same element and the same error as on the input
    with them, and stops at the same place. *)
Theorem unrecognised_tokens_are_dropped :
  forall (out : Element) (d : Decoder) (n : Name) (attr : list Attr),
    exists out' d' err,
      UnmarshalXML out d n attr = Done (out', d', err)
      /\ UnmarshalXML out (filter recognised d) n attr
         = Done (out', filter recognised d', err).
Proof.
  intros out d n attr. unfold UnmarshalXML at 1.
  destruct (unmarshalLoop_total (S (List.length d)) d
              (mkElement (mkName "" (Local n)) attr (children out)))
    as (o & d' & e & H & _); [lia|].
  exists o, d', e. split; [exact H|].
  apply unmarshalLoop_filter in H. destruct H as [fuel' H].
  eapply UnmarshalXML_of_loop. exact H.
Qed.

(** ** The two documents side by side *)

Lemma In_generatedEntries (accept : string -> bool) (tag file : string)
    (files : list string) :
  In (ChildElement (mkElement (mkName "" tag) [mkAttr (mkName "" "Include") file] []))
     (generatedEntries accept tag files)
  <-> In file files /\ accept (Ext file) = true.
Proof.
  unfold generatedEntries. rewrite in_flat_map. split.
  - intros [f [Hf Hin]]. destruct (accept (Ext f)) eqn:E; [|contradiction].
    destruct Hin as [H|[H|[]]]; [|discriminate]. injection H as <-. now split.
  - intros [Hf Ha]. exists file. split; [exact Hf|]. rewrite Ha. now left.
Qed.

Lemma In_entriesOf (root file name tag : string) (files : list string) :
  In file files -> classify root file = Some (name, tag) ->
  In (ChildElement (newEntry tag file name)) (entriesOf root files).
Proof.
  intros Hf Hc. unfold entriesOf. apply in_flat_map. exists file.
  split; [exact Hf|]. rewrite Hc. now left.
Qed.

(** X9: for a file whose directory resolves, the two documents agree where
    the project lists it: a file the Sources policy lists has a [ClCompile]
    entry under [Source Files] in the filter document, a file the Headers
    policy lists a [ClInclude] entry under [Header Files].  A file that neither
    policy lists is still in the filter document, as a [ClCompile] entry. *)
Theorem documents_agree_on_listed_files :
  forall (root : string) (element : Element) (files : list string) (file dir : string),
    In file files ->
    Rel root (Dir (FromSlash file)) = Some dir ->
    (isSourceExt (Ext file) = true ->
       In (ChildElement (mkElement (mkName "" "ClCompile")
                                   [mkAttr (mkName "" "Include") file] []))
          (children (overrideSources element files))
       /\ In (ChildElement (newEntry "ClCompile" file (Join ["Source Files"; dir])))
             (entriesOf root files))
    /\ (isHeaderExt (Ext file) = true ->
          In (ChildElement (mkElement (mkName "" "ClInclude")
                                      [mkAttr (mkName "" "Include") file] []))
             (children (overrideHeaders element files))
          /\ In (ChildElement (newEntry "ClInclude" file (Join ["Header Files"; dir])))
                (entriesOf root files))
    /\ (isSourceExt (Ext file) = false -> isHeaderExt (Ext file) = false ->
          ~ In (ChildElement (mkElement (mkName "" "ClCompile")
                                        [mkAttr (mkName "" "Include") file] []))
               (generatedEntries isSourceExt "ClCompile" files)
          /\ ~ In (ChildElement (mkElement (mkName "" "ClInclude")
                                           [mkAttr (mkName "" "Include") file] []))
                  (generatedEntries isHeaderExt "ClInclude" files)
          /\ In (ChildElement (newEntry "ClCompile" file (Join ["Source Files"; dir])))
                (entriesOf root files)).
Proof.
  intros root element files file dir Hin Hrel. unfold FromSlash in Hrel.
  assert (Hh : classify root file
               = if String.eqb (Ext file) ".h"
                 then Some (Join ["Header Files"; dir], "ClInclude")
                 else Some (Join ["Source Files"; dir], "ClCompile")).
  { unfold classify. now rewrite Hrel. }
  split; [|split].
  - intros Hs. rewrite overrideSources_eq. cbn [children]. split.
    + apply in_or_app. right. now apply In_generatedEntries.
    + apply In_entriesOf; [exact Hin|]. rewrite Hh.
      unfold isSourceExt in Hs.
      destruct (String.eqb_spec (Ext file) ".h") as [E|_]; [|reflexivity].
      rewrite E in Hs. discriminate.
  - intros Hs. rewrite overrideHeaders_eq. cbn [children]. split.
    + apply in_or_app. right. now apply In_generatedEntries.
    + apply In_entriesOf; [exact Hin|]. rewrite Hh.
      unfold isHeaderExt in Hs. now destruct (String.eqb (Ext file) ".h").
  - intros Hs Hd. split; [|split].
    + rewrite In_generatedEntries. intros [_ H]. congruence.
    + rewrite In_generatedEntries. intros [_ H]. congruence.
    + apply In_entriesOf; [exact Hin|]. rewrite Hh.
      unfold isHeaderExt in Hd. now destruct (String.eqb (Ext file) ".h").
Qed.

Lemma documents_agree_on_listed_files_witness :
  In (ChildElement (newEntry "ClCompile" "/work/doc/notes.txt" (Join ["Source Files"; "doc"])))
     (entriesOf "/work" ["/work/src/a.cpp"; "/work/doc/notes.txt"]).
Proof.
  refine (proj2 (proj2 (proj2 (proj2
            (documents_agree_on_listed_files "/work" (newElement "ItemGroup")
               ["/work/src/a.cpp"; "/work/doc/notes.txt"] "/work/doc/notes.txt" "doc"
               _ _)) _ _))).
  - right. left. reflexivity.
  - reflexivity.
  - reflexivity.
  - reflexivity.
Defined.

(** ** The shape of the filter hierarchy *)

Lemma ancestorsFrom_head (n : nat) (path : string) : In path (ancestorsFrom n path).
Proof. destruct n; now left. Qed.

(** X10: every entry of the entries grouping names, in its [Filter] child, a
    path that the filters grouping declares, with the identifier of that
    path. *)
Theorem entries_reference_declared_filters :
  forall (space : UUID) (root : string) (files : list string),
    exists filters entries,
      filterGroups space root files = Done (filters, entries)
      /\ Forall (fun c => exists tag file name,
                     c = ChildElement (newEntry tag file name)
                     /\ In (ChildElement (newFilter space name)) (children filters))
                (children entries).
Proof.
  intros space root files. do 2 eexists. split; [apply filterGroups_eq|].
  cbn [children itemGroup]. apply Forall_forall. intros c Hc.
  unfold entriesOf in Hc. apply in_flat_map in Hc. destruct Hc as [file [Hf Hc]].
  destruct (classify root file) as [[name tag]|] eqn:E; [|contradiction].
  destruct Hc as [<-|[]]. exists tag, file, name. split; [reflexivity|].
  unfold declarations.
  apply (in_map (fun path => ChildElement (newFilter space path))). unfold declaredPaths.
  apply fold_declareFile_In. right. exists file, name, tag.
  repeat split; try assumption. apply ancestorsFrom_head.
Qed.

Lemma ancestorsFrom_closed (n : nat) :
  forall name p q,
    String.length name <= n ->
    In p (ancestorsFrom n name) -> parentPath p = Some q ->
    In q (ancestorsFrom n name).
Proof.
  induction n as [|n IH]; intros name p q Hlen Hin Hp.
  - destruct name; [|simpl in Hlen; lia]. destruct Hin as [<-|[]]. discriminate.
  - cbn [ancestorsFrom] in *. destruct Hin as [<-|Hin].
    + right. rewrite Hp. apply ancestorsFrom_head.
    + right. destruct (parentPath name) as [parent|] eqn:E; [|contradiction].
      apply parentPath_shorter in E. apply (IH parent p q); [lia|exact Hin|exact Hp].
Qed.

(** X11: the paths the filters grouping declares are closed under stripping
    the last segment: whenever a path with a separator in it is declared, so is
    the path before its last separator. *)
Theorem declared_paths_are_closed_under_parent :
  forall (space : UUID) (root : string) (files : list string),
    filterGroups space root files
    = Done (itemGroup (declarations space (declaredPaths root files)),
            itemGroup (entriesOf root files))
    /\ (forall p q,
           In p (declaredPaths root files) ->
           parentPath p = Some q ->
           In q (declaredPaths root files)).
Proof.
  intros space root files. split; [apply filterGroups_eq|].
  intros p q Hin Hp. unfold declaredPaths in *.
  apply fold_declareFile_In in Hin. apply fold_declareFile_In.
  destruct Hin as [[]|[file [name [tag [Hf [Hc Ha]]]]]].
  right. exists file, name, tag. repeat split; try assumption.
  unfold ancestors in *. now apply (ancestorsFrom_closed _ name p q).
Qed.

Lemma declared_paths_are_closed_under_parent_witness :
  In "Source Files/a" (declaredPaths "/work" ["/work/a/b/x.cpp"]).
Proof.
  apply (proj2 (declared_paths_are_closed_under_parent UUIDSPACE_bytes "/work"
                  ["/work/a/b/x.cpp"]) "Source Files/a/b" "Source Files/a").
  - vm_compute. left. reflexivity.
  - vm_compute. reflexivity.
Defined.

Lemma Clean_nonempty (path : string) : Clean path <> "".
Proof.
  unfold Clean. destruct (String.eqb path ""); [discriminate|].
  destruct (rooted path); [discriminate|].
  destruct (String.eqb_spec (join_sep (rev (fold_left (clean_step false) (split_sep path) []))) "");
    [discriminate|assumption].
Qed.

Lemma classify_plain (root file name tag : string) :
  classify root file = Some (name, tag) -> plain_element name.
Proof.
  unfold classify. destruct (Rel root (Dir file)) as [dir|]; [|discriminate].
  destruct (String.eqb (Ext file) ".h"); intros [= <- _]; cbn [Join String.eqb];
    (split; [now rewrite Clean_rooted|apply Clean_nonempty]).
Qed.

Lemma split_loop_shape (rev_prefix : list ascii) :
  forall suffix,
    fst (split_loop rev_prefix suffix) = ""
    \/ exists l m c,
         IsPathSeparator c = true
         /\ rev rev_prefix = l ++ c :: m
         /\ fst (split_loop rev_prefix suffix) = string_of_list_ascii (l ++ [c]).
Proof.
  induction rev_prefix as [|c r IH]; intros suffix; cbn [split_loop]; [now left|].
  destruct (IsPathSeparator c) eqn:E.
  - right. exists (rev r), [], c. cbn [fst rev]. repeat split; assumption.
  - destruct (IH (String c suffix)) as [H|(l & m & c' & Hc & Hr & H)]; [now left|].
    right. exists l, (m ++ [c]), c'. cbn [rev]. rewrite Hr, <- app_assoc.
    repeat split; assumption.
Qed.

Lemma substring_prefix (l m : list ascii) :
  String.substring 0 (List.length l) (string_of_list_ascii (l ++ m))
  = string_of_list_ascii l.
Proof.
  induction l as [|a l IH]; simpl.
  - now destruct (string_of_list_ascii m).
  - now rewrite IH.
Qed.

Lemma parentPath_plain (p q : string) :
  parentPath p = Some q -> rooted p = false -> plain_element q.
Proof.
  unfold parentPath, Split.
  destruct (split_loop_shape (rev (list_ascii_of_string p)) "")
    as [->|(l & m & c & Hc & Hr & ->)]; [discriminate|].
  rewrite rev_involutive in Hr.
  rewrite length_string_of_list_ascii, length_app. cbn [List.length].
  replace (List.length l + 1 - 1) with (List.length l) by lia.
  rewrite substring_prefix.
  destruct (List.length l + 1 =? 0)%nat; [discriminate|]. intros [= <-] Hp.
  rewrite <- (string_of_list_ascii_of_string p), Hr in Hp.
  destruct l as [|a l]; simpl in Hp; [congruence|].
  split; [exact Hp|discriminate].
Qed.

Lemma ancestorsFrom_plain (n : nat) :
  forall name p, plain_element name -> In p (ancestorsFrom n name) -> plain_element p.
Proof.
  induction n as [|n IH]; intros name p Hn Hin.
  - destruct Hin as [<-|[]]. exact Hn.
  - cbn [ancestorsFrom] in Hin. destruct Hin as [<-|Hin]; [exact Hn|].
    destruct (parentPath name) as [parent|] eqn:E; [|contradiction].
    apply (IH parent); [|exact Hin]. apply (parentPath_plain name); [exact E|apply Hn].
Qed.

(** X12: no path the filters grouping declares is empty and none starts with
    a separator: the ancestor walk stops at the first segment and never
    declares the empty path. *)
Theorem declared_paths_are_not_empty :
  forall (space : UUID) (root : string) (files : list string),
    filterGroups space root files
    = Done (itemGroup (declarations space (declaredPaths root files)),
            itemGroup (entriesOf root files))
    /\ (forall p, In p (declaredPaths root files) -> p <> "" /\ rooted p = false).
Proof.
  intros space root files. split; [apply filterGroups_eq|].
  intros p Hin. unfold declaredPaths in Hin.
  apply fold_declareFile_In in Hin.
  destruct Hin as [[]|[file [name [tag [Hf [Hc Ha]]]]]].
  apply classify_plain in Hc.
  destruct (ancestorsFrom_plain _ name p Hc Ha) as [H1 H2]. now split.
Qed.

Lemma declared_paths_are_not_empty_witness :
  "Header Files" <> "" /\ rooted "Header Files" = false.
Proof.
  apply (proj2 (declared_paths_are_not_empty UUIDSPACE_bytes "/work" ["/work/inc/a.h"])
           "Header Files").
  vm_compute. right. left. reflexivity.
Defined.

(** ** What the exported functions write *)

Lemma put_open (ts : list Token) :
  forall w, put ts (mkEncoder w None false) = mkEncoder (w ++ ts) None false.
Proof.
  induction ts as [|t ts IH]; intros w; [now rewrite app_nil_r|].
  rewrite put_cons. cbn [EncodeToken broken room written fst].
  rewrite IH. now rewrite <- app_assoc.
Qed.

Lemma Encode_kept (t : Element) (room : option nat) :
  written (fst (Encode t (NewEncoder room))) = kept room (tokensOf t).
Proof.
  rewrite Encode_put. cbn [fst]. unfold NewEncoder. destruct room as [k|].
  - now rewrite put_room.
  - now rewrite put_open.
Qed.

Lemma exportFilter_eq (env : Env) (files : list string) (outpath : string) :
  exportFilter env files outpath
  = match Abs (getwd env) (Dir "./") with
    | None => Done [Println "An error occurred while getting root path."]
    | Some root =>
        match open_write env outpath with
        | None => Done [Println "File opening error occurred while writing filters."]
        | Some room =>
            Done [WriteFile outpath
                    (kept room
                       (tokensOf
                          (projectOf
                             (itemGroup (declarations UUIDSPACE_bytes
                                           (declaredPaths root files)),
                              itemGroup (entriesOf root files)))))]
        end
    end.
Proof.
  unfold exportFilter. change (UUID_Parse UUIDSPACE) with (Some UUIDSPACE_bytes). cbv iota.
  destruct (Abs (getwd env) (Dir "./")) as [root|]; [|reflexivity].
  rewrite filterGroups_eq. cbn [bind].
  destruct (open_write env outpath) as [room|]; [|reflexivity].
  rewrite <- Encode_kept. now destruct (Encode _ (NewEncoder room)).
Qed.

(** X13: [ExportProject] always returns, and it does one of six things: it
    prints one of three messages and writes nothing; or it writes the project
    file and prints one of two messages; or it writes the project file and then
    the filter file, whose path is the project path followed by [.filters].
    The filter file is never written without the project file. *)
Theorem export_outcomes :
  forall (env : Env) (files : list string) (outdir projname : string),
    let outpath := projectPath outdir projname in
    ExportProject env files outdir projname
    = Done [Println "An error occurred while getting executable path."]
    \/ ExportProject env files outdir projname
       = Done [Println "File opening error occurred while reading project template."]
    \/ ExportProject env files outdir projname
       = Done [Println "File opening error occurred while writing project file."]
    \/ (exists content,
           ExportProject env files outdir projname
           = Done [WriteFile outpath content;
                   Println "An error occurred while getting root path."])
    \/ (exists content,
           ExportProject env files outdir projname
           = Done [WriteFile outpath content;
                   Println "File opening error occurred while writing filters."])
    \/ (exists content filters,
           ExportProject env files outdir projname
           = Done [WriteFile outpath content;
                   WriteFile (outpath ++ ".filters")%string filters]).
Proof.
  intros env files outdir projname outpath. subst outpath. unfold projectPath, ExportProject.
  destruct (Abs (getwd env) (Dir (args0 env))) as [exepath|]; [|now left].
  destruct (open_read env _) as [fp_in|]; [|right; now left].
  destruct (Decode_total fp_in (mkElement (mkName "" "") [] [])) as (out & err & ->).
  cbn [bind]. destruct (scanTemplate _ out tt) as [element u].
  destruct (open_write env (Join [ToSlash outdir; (projname ++ ".vcxproj")%string]))
    as [room|]; [|right; right; now left].
  destruct (Encode element (NewEncoder room)) as [enc r].
  rewrite exportFilter_eq.
  destruct (Abs (getwd env) (Dir "./")) as [root|];
    [|right; right; right; left; eexists; reflexivity].
  destruct (open_write env _) as [room'|].
  - do 5 right. do 2 eexists. reflexivity.
  - do 4 right. left. eexists. reflexivity.
Qed.

(** X14: when the template is the token sequence of a tree, possibly with
    processing instructions and directives in between, and the project file
    opens, [ExportProject] writes to it what the sink keeps of the tokens of
    that tree with its namespaces emptied and every outermost [ItemGroup]
    rewritten by the label dispatch; everything else of the template is written
    back as it was read. *)
Theorem project_file_content :
  forall (env : Env) (files : list string) (outdir projname exepath : string)
         (template : Decoder) (t : Element) (room : option nat),
    Abs (getwd env) (Dir (args0 env)) = Some exepath ->
    open_read env (Join [exepath; "template.vcxproj"]) = Some template ->
    filter recognised template = items (tokensOf t) ->
    open_write env (projectPath outdir projname) = Some room ->
    exists events,
      ExportProject env files outdir projname
      = Done (WriteFile (projectPath outdir projname)
                (kept room (tokensOf (rewriteMatches (fn files) (stripNamespace t))))
              :: events).
Proof.
  intros env files outdir projname exepath template t room Hexe Hread Htpl Hwrite.
  unfold ExportProject. unfold projectPath in Hwrite. rewrite Hexe, Hread.
  rewrite <- Decode_filter, Htpl, Decode_tokensOf. cbn [bind].
  rewrite scanTemplate_pure, Hwrite.
  rewrite <- Encode_kept. unfold projectPath.
  destruct (Encode _ (NewEncoder room)) as [enc r]. cbn [fst].
  rewrite exportFilter_eq.
  destruct (Abs (getwd env) (Dir "./")) as [root|]; [|eexists; reflexivity].
  destruct (open_write env
              (Join [ToSlash outdir; (projname ++ ".vcxproj")%string] ++ ".filters")%string)
    as [room'|]; eexists; reflexivity.
Qed.

Lemma project_file_content_witness :
  exists events,
    ExportProject
      (mkEnv "/opt/tool/msbuild" (Some "/work")
         (fun _ => Some [Tok (ProcInst "xml" "version");
                         Tok (StartElement (mkName "ns" "Project") []);
                         Tok (StartElement (mkName "ns" "ItemGroup")
                                [mkAttr (mkName "" "Label") "Sources"]);
                         Tok (EndElement (mkName "ns" "ItemGroup"));
                         Tok (EndElement (mkName "ns" "Project"))])
         (fun _ => Some (Some 3)))
      ["a.cpp"] "out" "p"
    = Done (WriteFile (projectPath "out" "p")
              (kept (Some 3)
                 (tokensOf
                    (rewriteMatches (fn ["a.cpp"])
                       (stripNamespace
                          (mkElement (mkName "ns" "Project") []
                             [ChildElement
                                (mkElement (mkName "ns" "ItemGroup")
                                   [mkAttr (mkName "" "Label") "Sources"] [])])))))
            :: events).
Proof.
  eapply (project_file_content _ ["a.cpp"] "out" "p" "/opt/tool"); reflexivity.
Defined.

(** X15: when the root resolves and the filter file opens, [exportFilter]
    writes to it what the sink keeps of one document: the [Project] start tag
    with its namespace and the [ToolsVersion] attribute, the filters grouping
    with the declarations, the entries grouping with the entries, and the end
    tag; nothing is printed. *)
Theorem filter_file_content :
  forall (env : Env) (files : list string) (outpath root : string) (room : option nat),
    Abs (getwd env) (Dir "./") = Some root ->
    open_write env outpath = Some room ->
    exportFilter env files outpath
    = Done [WriteFile outpath
              (kept room
                 (StartElement
                    (mkName "http://schemas.microsoft.com/developer/msbuild/2003" "Project")
                    [mkAttr (mkName "" "ToolsVersion") "4.0"]
                  :: tokensOf (itemGroup (declarations UUIDSPACE_bytes
                                            (declaredPaths root files)))
                  ++ tokensOf (itemGroup (entriesOf root files))
                  ++ [EndElement
                        (mkName "http://schemas.microsoft.com/developer/msbuild/2003"
                                "Project")]))].
Proof.
  intros env files outpath root room Hroot Hopen.
  rewrite exportFilter_eq, Hroot, Hopen. do 3 f_equal.
  unfold projectOf. rewrite tokensOf_eq. cbn [flat_map childTokens fst snd].
  now rewrite <- !app_assoc.
Qed.

Lemma filter_file_content_witness :
  exportFilter sampleEnv ["/work/a.cpp"] "p.filters"
  = Done [WriteFile "p.filters"
            (kept None
               (StartElement
                  (mkName "http://schemas.microsoft.com/developer/msbuild/2003" "Project")
                  [mkAttr (mkName "" "ToolsVersion") "4.0"]
                :: tokensOf (itemGroup (declarations UUIDSPACE_bytes
                                          (declaredPaths "/work" ["/work/a.cpp"])))
                ++ tokensOf (itemGroup (entriesOf "/work" ["/work/a.cpp"]))
                ++ [EndElement
                      (mkName "http://schemas.microsoft.com/developer/msbuild/2003"
                              "Project")]))].
Proof.
  apply (filter_file_content sampleEnv ["/work/a.cpp"] "p.filters" "/work" None);
    reflexivity.
Defined.

(** ** Calls in sequence *)

Lemma replay_fold (calls : list Mutation) :
  forall e,
    fold_left (fun e m => mutate m e) calls e
    = mkElement (name e) (attributes e ++ callAttributes calls)
        (children e
           ++ flat_map (fun m => match m with
                                 | CallAddAttribute _ _ => []
                                 | CallAddChild c => [ChildElement (newElement c)]
                                 | CallAddCharData v => [CharData v]
                                 end) calls).
Proof.
  induction calls as [|m calls IH]; intros [n a cs].
  - simpl. now rewrite !app_nil_r.
  - cbn [fold_left]. rewrite IH. unfold callAttributes. cbn [flat_map].
    destruct m; cbn [mutate AddAttribute AddChild AppendChild AddCharData name attributes
                      children app]; now rewrite <- ?app_assoc.
Qed.

(** X16: what [AddAttribute], [AddChild] and [AddCharData], called in any
    sequence on a new element, encode to: the start tag with the attributes in
    the order of the [AddAttribute] calls, repeated names included, then for
    each [AddChild] an empty element and for each [AddCharData] its text, in the
    order of the calls, then the end tag; no error is returned. *)
Theorem calls_encode_in_call_order :
  forall (n : string) (calls : list Mutation),
    Encode (replay n calls) (NewEncoder None)
    = (mkEncoder (StartElement (mkName "" n) (callAttributes calls)
                    :: callTokens calls ++ [EndElement (mkName "" n)])
                 None false,
       None).
Proof.
  intros n calls. unfold Encode, replay.
  rewrite MarshalXML_open by (split; reflexivity).
  rewrite replay_fold. cbn [name attributes children newElement app NewEncoder written
                            finishEncode broken].
  rewrite tokensOf_eq. do 4 f_equal.
  unfold callTokens. induction calls as [|m calls IH]; [reflexivity|].
  cbn [flat_map]. rewrite flat_map_app, IH. f_equal.
  destruct m; reflexivity.
Qed.
